(** * gathertool: the request context, its retry machine and the cookie pool

    A shallow embedding of [context.go]: the [Context] struct, [Context.Do],
    [Context.Upload] and the package-level [cookiePool].

    The Go code mutates the context through a pointer and talks to the
    outside (the HTTP transport, the response body, the log, the file
    system).  Here the context is threaded explicitly, and everything the
    code does to the outside is appended, in order, to a trace of events.
    What the outside answers is given by oracles: the transport
    ([ClientDoT]), the function values stored in the hook fields
    ([HookTable]), the package variable [StatusCodeMap] (declared elsewhere
    in the package, and a parameter here) and [os.Create]. *)

From Stdlib Require Import ZArith List String Ascii Bool Lia.
From Stdlib Require Import Strings.Byte.
Import ListNotations.

Local Open Scope string_scope.
Local Open Scope list_scope.
Local Open Scope Z_scope.

Module gathertool.

(** ** Go's [int] and [int64]: 64-bit two's complement *)

Definition int_min : Z := - 2 ^ 63.
Definition int_max : Z := 2 ^ 63 - 1.

(** The value an [int] holds after an arithmetic result [z]. *)
Definition wrap_int (z : Z) : Z := (z + 2 ^ 63) mod 2 ^ 64 - 2 ^ 63.

(** ** [strings.Contains] *)

Fixpoint Contains (s substr : string) : bool :=
  if String.prefix substr s then true
  else match s with
       | EmptyString => false
       | String _ s' => Contains s' substr
       end.

(** The text [Do] and [Upload] look for in the transport error. *)
Definition timeout_marker : string :=
  "(Client.Timeout exceeded while awaiting headers)".

(** ** Response bodies

    A body is an [io.Reader] owned by the transport.  It is modelled by what
    it answers to the successive [Read] calls made on it: a chunk of bytes
    and an error status.  A reader whose answers are used up is at end of
    file. *)

Inductive ReadErr : Type :=
| RNil                      (* err == nil *)
| REOF                      (* err == io.EOF *)
| RFail (msg : string).     (* any other error *)

Definition Reader : Type := list (list byte * ReadErr).

(** [r.Read(buf)] with [len(buf) = cap]: the bytes placed in [buf[:n]], the
    error, and the reader afterwards.  [n] never exceeds [len(buf)]: an
    answer is what one call returns, and is cut to the buffer. *)
Definition Read (cap : nat) (r : Reader) : list byte * ReadErr * Reader :=
  match r with
  | [] => ([], REOF, [])
  | (chunk, e) :: rest => (firstn cap chunk, e, rest)
  end.

(** [ioutil.ReadAll]: reads until an error; end of file is not an error.
    [ReadAll] grows its own buffer, so a chunk is taken whole. *)
Fixpoint ReadAll_from (acc : list byte) (r : Reader)
  : list byte * option string * Reader :=
  match r with
  | [] => (acc, None, [])
  | (chunk, RNil) :: rest => ReadAll_from (acc ++ chunk) rest
  | (chunk, REOF) :: rest => (acc ++ chunk, None, rest)
  | (chunk, RFail msg) :: rest => (acc ++ chunk, Some msg, rest)
  end.

Definition ReadAll (r : Reader) : list byte * option string * Reader :=
  ReadAll_from [] r.

(** The bytes a reader delivers up to and including its first answer that
    carries an error status (end of file or a failure). *)
Fixpoint content (r : Reader) : list byte :=
  match r with
  | [] => []
  | (chunk, RNil) :: rest => chunk ++ content rest
  | (chunk, _) :: _ => chunk
  end.

(** ** [http.Request], [http.Response], [http.Client] *)

Record Request : Type := mkRequest {
  Method : string;
  URL : string;
  Header : list (string * string)
}.

Record Response : Type := mkResponse {
  StatusCode : Z;
  ContentLength : string;     (* Header.Get("Content-Length") *)
  Body : Reader;
  Closed : bool               (* Body.Close() was called *)
}.

(** An [*http.Client] is a handle; what it does is the transport oracle's. *)
Definition Client : Type := nat.

(** A function value stored in a hook field is a handle into the table of
    the functions the caller supplied. *)
Definition HookId : Type := nat.

(** ** [Context] *)

Record Context : Type := mkContext {
  Token : string;
  Client_ : Client;
  Req : Request;
  Resp : option Response;
  Err : option string;
  times : Z;                      (* RetryTimes, an int; starts at 0 *)
  MaxTimes : Z;
  SucceedFunc : option HookId;
  FailedFunc : option HookId;
  RetryFunc : option HookId;
  StartFunc : option HookId;
  EndFunc : option HookId;
  Task : option nat;
  RespBody : list byte;
  JobNumber : Z;
  Ms : Z
}.

Definition set_times (t : Z) (c : Context) : Context :=
  mkContext (Token c) (Client_ c) (Req c) (Resp c) (Err c) t (MaxTimes c)
    (SucceedFunc c) (FailedFunc c) (RetryFunc c) (StartFunc c) (EndFunc c)
    (Task c) (RespBody c) (JobNumber c) (Ms c).

Definition set_Resp (r : option Response) (c : Context) : Context :=
  mkContext (Token c) (Client_ c) (Req c) r (Err c) (times c) (MaxTimes c)
    (SucceedFunc c) (FailedFunc c) (RetryFunc c) (StartFunc c) (EndFunc c)
    (Task c) (RespBody c) (JobNumber c) (Ms c).

Definition set_Err (e : option string) (c : Context) : Context :=
  mkContext (Token c) (Client_ c) (Req c) (Resp c) e (times c) (MaxTimes c)
    (SucceedFunc c) (FailedFunc c) (RetryFunc c) (StartFunc c) (EndFunc c)
    (Task c) (RespBody c) (JobNumber c) (Ms c).

Definition set_Ms (ms : Z) (c : Context) : Context :=
  mkContext (Token c) (Client_ c) (Req c) (Resp c) (Err c) (times c) (MaxTimes c)
    (SucceedFunc c) (FailedFunc c) (RetryFunc c) (StartFunc c) (EndFunc c)
    (Task c) (RespBody c) (JobNumber c) ms.

Definition set_RespBody (b : list byte) (c : Context) : Context :=
  mkContext (Token c) (Client_ c) (Req c) (Resp c) (Err c) (times c) (MaxTimes c)
    (SucceedFunc c) (FailedFunc c) (RetryFunc c) (StartFunc c) (EndFunc c)
    (Task c) b (JobNumber c) (Ms c).

(** [SetSucceedFunc], [SetFailedFunc], [SetRetryFunc], [SetRetryTimes]. *)
Definition SetSucceedFunc (f : option HookId) (c : Context) : Context :=
  mkContext (Token c) (Client_ c) (Req c) (Resp c) (Err c) (times c) (MaxTimes c)
    f (FailedFunc c) (RetryFunc c) (StartFunc c) (EndFunc c)
    (Task c) (RespBody c) (JobNumber c) (Ms c).

Definition SetFailedFunc (f : option HookId) (c : Context) : Context :=
  mkContext (Token c) (Client_ c) (Req c) (Resp c) (Err c) (times c) (MaxTimes c)
    (SucceedFunc c) f (RetryFunc c) (StartFunc c) (EndFunc c)
    (Task c) (RespBody c) (JobNumber c) (Ms c).

Definition SetRetryFunc (f : option HookId) (c : Context) : Context :=
  mkContext (Token c) (Client_ c) (Req c) (Resp c) (Err c) (times c) (MaxTimes c)
    (SucceedFunc c) (FailedFunc c) f (StartFunc c) (EndFunc c)
    (Task c) (RespBody c) (JobNumber c) (Ms c).

Definition SetRetryTimes (n : Z) (c : Context) : Context :=
  mkContext (Token c) (Client_ c) (Req c) (Resp c) (Err c) (times c) n
    (SucceedFunc c) (FailedFunc c) (RetryFunc c) (StartFunc c) (EndFunc c)
    (Task c) (RespBody c) (JobNumber c) (Ms c).

(** ** The outside: events and oracles *)

Inductive HookKind : Type := KStart | KEnd | KSucceed | KFailed | KRetry.

(** One constructor per [log.Println] call of the file. *)
Inductive LogLine : Type :=
| LogNilObject                              (* "空对象" *)
| LogBudget (maxTimes : Z)                  (* "请求失败操过", MaxTimes, "次了" *)
| LogErr (e : string)                       (* "err = ", c.Err *)
| LogReadErr (e : string)                   (* the ReadAll error *)
| LogRetryStatus (t : Z) (status : Z)       (* "第", times, ..., StatusCode *)
| LogStartEvent                             (* "执行 start 事件" *)
| LogEndEvent                               (* "执行 end 事件" *)
| LogDownload (path : string) (sum : Z) (header : string) (final : bool).

Inductive Event : Type :=
| EvLog (l : LogLine)
| EvHook (k : HookKind) (h : HookId)        (* a hook field was called *)
| EvNet (cl : Client) (rq : Request)        (* c.Client.Do(c.Req) *)
| EvClose                                   (* Resp.Body.Close() *)
| EvCreate (path : string)                  (* os.Create succeeded *)
| EvWrite (path : string) (data : list byte)
| EvFileClose (path : string).

Definition World : Type := list Event.

Definition emit (e : Event) (w : World) : World := w ++ [e].
Definition Println (l : LogLine) (w : World) : World := emit (EvLog l) w.

Definition is_net (e : Event) : bool :=
  match e with EvNet _ _ => true | _ => false end.


Definition is_hook (e : Event) : bool :=
  match e with EvHook _ _ => true | _ => false end.

Definition is_hook_of (k : HookKind) (e : Event) : bool :=
  match e, k with
  | EvHook KStart _, KStart | EvHook KEnd _, KEnd
  | EvHook KSucceed _, KSucceed | EvHook KFailed _, KFailed
  | EvHook KRetry _, KRetry => true
  | _, _ => false
  end.

(** The number of network attempts, of hook calls, of calls of one hook. *)
Definition attempts (w : World) : nat := List.length (filter is_net w).
Definition hook_calls (w : World) : nat := List.length (filter is_hook w).
Definition calls_of (k : HookKind) (w : World) : nat :=
  List.length (filter (is_hook_of k) w).

(** The bytes written to [path], in order. *)
Fixpoint file_bytes (path : string) (w : World) : list byte :=
  match w with
  | [] => []
  | EvWrite p d :: w' =>
      if String.eqb p path then d ++ file_bytes path w' else file_bytes path w'
  | _ :: w' => file_bytes path w'
  end.

(** What [c.Client.Do(c.Req)] returns.  [net/http] returns a non-nil
    response whenever the error is nil. *)
Inductive NetResult : Type :=
| TransportErr (resp : option Response) (e : string)
| Received (resp : Response).

Record NetReply : Type := mkReply {
  result : NetResult;
  elapsed : Z               (* time.Now().Sub(before) *)
}.

(** The transport: its answer to the [n]-th call, made through client [cl]
    with request [rq]. *)
Definition ClientDoT : Type := nat -> Client -> Request -> NetReply.

(** The functions behind the hook handles.  A hook receives the context
    pointer and may change any field. *)
Definition HookTable : Type := HookId -> Context -> Context.

(** The package variable [StatusCodeMap], a [map[int]string]. *)
Definition StatusCodeMapT : Type := Z -> option string.

(** [os.Create]: the error it returns for a path, if any. *)
Definition CreateT : Type := string -> option string.

Definition St : Type := (Context * World)%type.

Definition ret (s : St) : option (option Context * World) :=
  Some (Some (fst s), snd s).

(** The response of the context with its body replaced by what is left of
    the reader. *)
Definition with_Body (body : Reader) (r : Response) : Response :=
  mkResponse (StatusCode r) (ContentLength r) body (Closed r).

(** ** [Context.Do] and [Context.Upload] *)

Section Machine.

Variable hooks : HookTable.
Variable ClientDo : ClientDoT.
Variable StatusCodeMap : StatusCodeMapT.
Variable Create : CreateT.

(** [c.XFunc(c)] for the function value [h] held by the hook field [k]. *)
Definition call (k : HookKind) (h : HookId) (s : St) : St :=
  (hooks h (fst s), emit (EvHook k h) (snd s)).

(** [if c.times == 0 && c.StartFunc != nil { c.StartFunc(c) }] *)
Definition Do_start (s : St) : St :=
  if times (fst s) =? 0
  then match StartFunc (fst s) with
       | Some h => call KStart h s
       | None => s
       end
  else s.

(** [if c.times == c.MaxTimes && c.EndFunc != nil { c.EndFunc(c) }] *)
Definition Do_end (s : St) : St :=
  if times (fst s) =? MaxTimes (fst s)
  then match EndFunc (fst s) with
       | Some h => call KEnd h s
       | None => s
       end
  else s.

(** [c.times++] *)
Definition count (c : Context) : Context :=
  set_times (wrap_int (times c + 1)) c.

(** [c.Resp, c.Err = c.Client.Do(c.Req)]; [Do] also stores the elapsed
    time in [c.Ms], [Upload] does not. *)
Definition attempt (timed : bool) (s : St) : NetResult * St :=
  let c := fst s in
  let reply := ClientDo (attempts (snd s)) (Client_ c) (Req c) in
  let c1 := match result reply with
            | TransportErr r e => set_Err (Some e) (set_Resp r c)
            | Received r => set_Err None (set_Resp (Some r) c)
            end in
  let c2 := if timed then set_Ms (elapsed reply) c1 else c1 in
  (result reply, (c2, emit (EvNet (Client_ c) (Req c)) (snd s))).

(** The deferred function of [Do] and [Upload], run when the call that
    received a response returns:
    [if cxt.Resp != nil { cxt.Resp.Body.Close() }]. *)
Definition close_body (s : St) : St :=
  match Resp (fst s) with
  | Some r =>
      (set_Resp (Some (mkResponse (StatusCode r) (ContentLength r) (Body r) true))
         (fst s),
       emit EvClose (snd s))
  | None => s
  end.

Definition deferred (res : option (option Context * World))
  : option (option Context * World) :=
  match res with
  | Some (Some c, w) => ret (close_body (c, w))
  | other => other
  end.

(** [fuel] bounds the depth of the recursion [return c.Do()]; [None] means
    that the bound was reached. *)
Fixpoint Do (fuel : nat) (c : option Context) (w : World)
  : option (option Context * World) :=
  match fuel with
  | O => None
  | S fuel' =>
    match c with
    | None => Some (None, Println LogNilObject w)
    | Some c =>
      let s := Do_end (Do_start (c, w)) in
      let c := count (fst s) in
      let w := snd s in
      if times c >? MaxTimes c
      then ret (c, Println (LogBudget (MaxTimes c)) w)
      else
        let '(r, (c, w)) := attempt true (c, w) in
        match r with
        | TransportErr _ e =>
          if Contains e timeout_marker
          then match RetryFunc c with
               | Some h =>
                   let s := call KRetry h (c, w) in
                   Do fuel' (Some (fst s)) (snd s)
               | None => ret (c, w)
               end
          else
            let w := Println (LogErr e) w in
            match FailedFunc c with
            | Some h => ret (call KFailed h (c, w))
            | None => ret (c, w)
            end
        | Received resp =>
          deferred
            match StatusCodeMap (StatusCode resp) with
            | Some v =>
              if String.eqb v "success" then
                let '(body, err, rest) := ReadAll (Body resp) in
                let c := set_Resp (Some (with_Body rest resp)) c in
                match err with
                | Some e => ret (c, Println (LogReadErr e) w)
                | None =>
                    let c := set_RespBody body c in
                    match SucceedFunc c with
                    | Some h => ret (call KSucceed h (c, w))
                    | None => ret (c, w)
                    end
                end
              else if String.eqb v "retry" then
                let w := Println (LogRetryStatus (times c) (StatusCode resp)) w in
                let s := match RetryFunc c with
                         | Some h => call KRetry h (c, w)
                         | None => (c, w)
                         end in
                Do fuel' (Some (fst s)) (snd s)
              else if String.eqb v "file" then
                match FailedFunc c with
                | Some h => ret (call KFailed h (c, w))
                | None => ret (c, w)
                end
              else if String.eqb v "start" then ret (c, Println LogStartEvent w)
              else if String.eqb v "end" then ret (c, Println LogEndEvent w)
              else ret (c, w)
            | None => ret (c, w)
            end
        end
    end
  end.

(** [buf := make([]byte, 1024*100)] *)
Definition buf_len : nat := 1024 * 100.

Definition stops (e : ReadErr) (n : Z) : bool :=
  match e with RNil => n =? 0 | _ => true end.

(** The transfer loop of [Upload], entered with the values [i] and [sum]
    have before the iteration.  It gives the final [sum], what is left of
    the body and the events.  The recursion follows the reader: on a
    reader whose answers are used up, [Read] returns no byte and
    [io.EOF], which ends the loop. *)
Fixpoint transfer (path header : string) (i sum : Z) (body : Reader) (w : World)
  : Z * Reader * World :=
  let i := wrap_int (i + 1) in
  let '(data, err, _) := Read buf_len body in
  let n := Z.of_nat (List.length data) in
  let sum := wrap_int (sum + n) in
  let w := emit (EvWrite path data) w in
  match body with
  | [] => (sum, [], w)
  | _ :: rest =>
      if stops err n then (sum, rest, w)
      else
        let w := if Z.rem i 9 =? 0
                 then Println (LogDownload path sum header false) w
                 else w in
        transfer path header i sum rest w
  end.

Definition Upload (fuel : nat) (filePath : string) (c : option Context) (w : World)
  : option (option Context * World) :=
  match c with
  | None => Some (None, Println LogNilObject w)
  | Some c =>
    let c := count c in
    if times c >? MaxTimes c
    then ret (c, Println (LogBudget (MaxTimes c)) w)
    else
      let '(r, (c, w)) := attempt false (c, w) in
      match r with
      | TransportErr _ e =>
        if Contains e timeout_marker
        then match RetryFunc c with
             | Some h =>
                 let s := call KRetry h (c, w) in
                 Do fuel (Some (fst s)) (snd s)
             | None => ret (c, w)
             end
        else
          let w := Println (LogErr e) w in
          match FailedFunc c with
          | Some h => ret (call KFailed h (c, w))
          | None => ret (c, w)
          end
      | Received resp =>
        deferred
          match Create filePath with
          | Some e => ret (set_Err (Some e) c, w)
          | None =>
              let w := emit (EvCreate filePath) w in
              let '(sum, rest, w) :=
                transfer filePath (ContentLength resp) 0 0 (Body resp) w in
              let c := set_Resp (Some (with_Body rest resp)) c in
              let w := Println (LogDownload filePath sum (ContentLength resp) true) w in
              ret (c, emit (EvFileClose filePath) w)
          end
      end
  end.

(** Derived notions, used to state the properties. *)

(** The state of [Do] once it has run its start and end blocks and
    incremented the counter, before the budget test. *)
Definition entry (s : St) : St :=
  let s1 := Do_end (Do_start s) in (count (fst s1), snd s1).

(** What the transport answers to the attempt made from [entry s], and the
    state once [c.Resp], [c.Err] and [c.Ms] are assigned. *)
Definition answer (s : St) : NetResult := fst (attempt true (entry s)).
Definition answered (s : St) : St := snd (attempt true (entry s)).

(** The same for [Upload], which has no start and end blocks and does not
    time the call. *)
Definition Upload_answer (s : St) : NetResult :=
  fst (attempt false (count (fst s), snd s)).
Definition Upload_answered (s : St) : St :=
  snd (attempt false (count (fst s), snd s)).

(** The successive chunks the transfer loop takes from a reader: it goes
    on to the first answer that has an error status or no byte, that one
    included. *)
Fixpoint taken (body : Reader) : list (list byte) :=
  match body with
  | [] => [[]]
  | (chunk, e) :: rest =>
      let data := firstn buf_len chunk in
      if stops e (Z.of_nat (List.length data)) then [data]
      else data :: taken rest
  end.


(** The hooks leave the retry counter and the retry budget alone. *)
Definition keeps_counters : Prop :=
  forall h c, times (hooks h c) = times c /\ MaxTimes (hooks h c) = MaxTimes c.

End Machine.

(** ** [cookiePool] *)

Record Cookie : Type := mkCookie {
  Name : string;
  Value : string
}.

Record cookiePool : Type := mkPool {
  cookie : list Cookie;
  mux : bool                  (* the mutex is held *)
}.

(** [var CookiePool = &cookiePool{}] *)
Definition CookiePool : cookiePool := mkPool [] false.

(** How a call ends: it returns, it panics, or it waits for the mutex. *)
Inductive Outcome (A : Type) : Type :=
| Returned (a : A)
| Panicked (msg : string)
| Blocked.

Arguments Returned {A} a.
Arguments Panicked {A} msg.
Arguments Blocked {A}.

(** [rand.Int63n(n)]: panics when [n <= 0], otherwise reduces the 63-bit
    value [v] drawn from the source into [[0, n)]. *)
Definition Int63n (v : Z) (n : Z) : Outcome Z :=
  if n <=? 0 then Panicked "invalid argument to Int63n"
  else Returned (v mod n).

(** [Add]: the pool after the call.  The deferred [Unlock] frees the mutex. *)
Definition Add (ck : Cookie) (p : cookiePool) : Outcome unit * cookiePool :=
  if mux p then (Blocked, p)
  else (Returned tt, mkPool (cookie p ++ [ck]) false).

(** [Get], with [v] the value the random source yields.  The slice access
    [c.cookie[n]] panics out of range. *)
Definition Get (v : Z) (p : cookiePool) : Outcome Cookie * cookiePool :=
  if mux p then (Blocked, p)
  else
    match Int63n v (Z.of_nat (List.length (cookie p))) with
    | Returned n =>
        match nth_error (cookie p) (Z.to_nat n) with
        | Some ck => (Returned ck, mkPool (cookie p) false)
        | None => (Panicked "index out of range", mkPool (cookie p) false)
        end
    | Panicked msg => (Panicked msg, mkPool (cookie p) false)
    | Blocked => (Blocked, p)
    end.

(** The pool after [Add] was called on each cookie of [cks] in turn. *)
Fixpoint AddAll (cks : list Cookie) (p : cookiePool) : cookiePool :=
  match cks with
  | [] => p
  | ck :: rest => AddAll rest (snd (Add ck p))
  end.

End gathertool.

Import gathertool.

(** ** Notions for whole chains, files and sequences of pool calls *)

Module chains.

Definition is_close (e : Event) : bool :=
  match e with EvClose => true | _ => false end.

Definition is_file (e : Event) : bool :=
  match e with
  | EvCreate _ | EvWrite _ _ | EvFileClose _ => true
  | _ => false
  end.

(** The number of [Body.Close()] calls, and the calls on files. *)
Definition closes (w : World) : nat := List.length (filter is_close w).
Definition file_events (w : World) : list Event := filter is_file w.

(** The events of the start and end blocks of [Do]. *)
Definition block_event (e : Event) : bool :=
  match e with EvHook KStart _ | EvHook KEnd _ => true | _ => false end.

(** What an entry of [Do] that returns does after its attempt: log lines and
    the success or failure hook. *)
Definition stop_event (e : Event) : bool :=
  match e with
  | EvLog _ | EvHook KSucceed _ | EvHook KFailed _ => true
  | _ => false
  end.

(** What an entry of [Do] that recurses does after its attempt: log lines
    and the retry hook. *)
Definition retry_event (e : Event) : bool :=
  match e with EvLog _ | EvHook KRetry _ => true | _ => false end.

(** Everything [Do] does before the deferred closes run. *)
Definition run_event (e : Event) : bool :=
  match e with EvLog _ | EvHook _ _ | EvNet _ _ => true | _ => false end.

(** The content of the file [path] after the events [w], [old] being its
    content before: [os.Create] truncates it, [f.Write] appends to it. *)
Fixpoint file_content (path : string) (old : list byte) (w : World) : list byte :=
  match w with
  | [] => old
  | EvCreate p :: w' =>
      file_content path (if String.eqb p path then [] else old) w'
  | EvWrite p data :: w' =>
      file_content path (if String.eqb p path then old ++ data else old) w'
  | _ :: w' => file_content path old w'
  end.

(** A reader that answers every [Read] of the transfer loop within the
    buffer, and never with no byte and no error. *)
Definition well_chunked (body : Reader) : Prop :=
  Forall (fun a => (List.length (fst a) <= buf_len)%nat
                   /\ (snd a = RNil -> fst a <> []))
         body.

(** The number of bytes of the chunks the transfer loop takes. *)
Definition taken_bytes (body : Reader) : Z :=
  Z.of_nat (List.length (List.concat (taken body))).

(** Calls on the cookie pool, and the pool after a sequence of them. *)
Inductive PoolOp : Type :=
| OpAdd (ck : Cookie)
| OpGet (v : Z).

Definition step_op (op : PoolOp) (p : cookiePool) : cookiePool :=
  match op with
  | OpAdd ck => snd (Add ck p)
  | OpGet v => snd (Get v p)
  end.

Fixpoint run_ops (ops : list PoolOp) (p : cookiePool) : cookiePool :=
  match ops with
  | [] => p
  | op :: rest => run_ops rest (step_op op p)
  end.

(** The cookies a sequence of calls adds, in order. *)
Fixpoint added (ops : list PoolOp) : list Cookie :=
  match ops with
  | [] => []
  | OpAdd ck :: rest => ck :: added rest
  | OpGet _ :: rest => added rest
  end.

(** The hooks leave the [RetryFunc] field alone. *)
Definition keeps_RetryFunc (hooks : HookTable) : Prop :=
  forall h c, RetryFunc (hooks h c) = RetryFunc c.

(** Every answer of the transport asks for a retry: a response whose status
    the table maps to [retry], or, given that a retry hook is set, an error
    with the timeout text. *)
Definition always_retryable
  (ClientDo : ClientDoT) (StatusCodeMap : StatusCodeMapT) (hooked : bool) : Prop :=
  forall n cl rq,
    match result (ClientDo n cl rq) with
    | Received r => StatusCodeMap (StatusCode r) = Some "retry"
    | TransportErr _ e => Contains e timeout_marker = true /\ hooked = true
    end.

End chains.

Import chains.

(** ** Concrete contexts, transports and tables *)

Module Examples.

(** Hooks that leave the context as it is. *)
Definition quiet_hooks : HookTable := fun _ c => c.

Definition req0 : Request := mkRequest "GET" "http://ip.bczs.net/country/CN" [].

(** A context as the constructors of the package leave it: no attempt
    made, no response, the hooks as given. *)
Definition fresh (k : Z) (succeed failed retry start end_ : option HookId)
  : Context :=
  mkContext "" 0%nat req0 None None 0 k succeed failed retry start end_
    None [] 0 0.

Definition ok_body : Reader := [([x6f; x6b], REOF)].            (* "ok" *)
Definition split_body : Reader := [([x6f], RNil); ([x6b], RNil); ([], REOF)].
Definition broken_body : Reader := [([x6f], RNil); ([x6b], RFail "unexpected EOF")].

Definition resp (status : Z) (body : Reader) : Response :=
  mkResponse status "2" body false.

Definition timeout_err : string :=
  "Get http://ip.bczs.net/country/CN: net/http: request canceled (Client.Timeout exceeded while awaiting headers)".

Definition refused_err : string :=
  "dial tcp 127.0.0.1:80: connect: connection refused".

(** Transports that give the same answer to every call. *)
Definition always (r : NetResult) : ClientDoT := fun _ _ _ => mkReply r 5.

(** A table in the vocabulary of the [switch] of [Do]. *)
Definition table : StatusCodeMapT :=
  fun code =>
    if code =? 200 then Some "success"
    else if code =? 500 then Some "retry"
    else if code =? 404 then Some "file"
    else None.

Definition create_ok : CreateT := fun _ => None.

Definition ck1 : Cookie := mkCookie "sid" "a".
Definition ck2 : Cookie := mkCookie "sid" "b".
Definition ck3 : Cookie := mkCookie "sid" "c".

(** [c.Client = cl], as a retry hook does to change proxy. *)
Definition with_Client (cl : Client) (c : Context) : Context :=
  mkContext (Token c) cl (Req c) (Resp c) (Err c) (times c) (MaxTimes c)
    (SucceedFunc c) (FailedFunc c) (RetryFunc c) (StartFunc c) (EndFunc c)
    (Task c) (RespBody c) (JobNumber c) (Ms c).

(** Hook 3 moves the context to the next client; the other hooks leave the
    context as it is. *)
Definition proxy_hooks : HookTable :=
  fun h c => if Nat.eqb h 3 then with_Client (S (Client_ c)) c else c.

(** A transport that answers from a script, then with [last]. *)
Definition scripted (l : list NetResult) (last : NetResult) : ClientDoT :=
  fun n _ _ => mkReply (nth n l last) 5.

(** A body that delivers a byte, then answers once with no byte and no
    error, then delivers another byte. *)
Definition stalled_body : Reader := [([x6f], RNil); ([], RNil); ([x6b], REOF)].


Definition create_fails : CreateT := fun _ => Some "open ip.html: permission denied".

End Examples.

(** * Properties *)

(** ** Arithmetic of [int], counting events *)

Lemma wrap_int_id (z : Z) : int_min <= z <= int_max -> wrap_int z = z.
Proof.
  unfold int_min, int_max, wrap_int.
  change (2 ^ 63) with 9223372036854775808.
  change (2 ^ 64) with 18446744073709551616.
  intros H. rewrite Z.mod_small; lia.
Qed.

Lemma attempts_app (w1 w2 : World) :
  attempts (w1 ++ w2) = (attempts w1 + attempts w2)%nat.
Proof. unfold attempts. now rewrite filter_app, length_app. Qed.

Lemma hook_calls_app (w1 w2 : World) :
  hook_calls (w1 ++ w2) = (hook_calls w1 + hook_calls w2)%nat.
Proof. unfold hook_calls. now rewrite filter_app, length_app. Qed.

Lemma calls_of_app (k : HookKind) (w1 w2 : World) :
  calls_of k (w1 ++ w2) = (calls_of k w1 + calls_of k w2)%nat.
Proof. unfold calls_of. now rewrite filter_app, length_app. Qed.

Lemma attempts_emit (e : Event) (w : World) :
  attempts (emit e w) = (attempts w + if is_net e then 1 else 0)%nat.
Proof. unfold emit. rewrite attempts_app. unfold attempts. simpl. now destruct (is_net e). Qed.

Lemma hook_calls_emit (e : Event) (w : World) :
  hook_calls (emit e w) = (hook_calls w + if is_hook e then 1 else 0)%nat.
Proof. unfold emit. rewrite hook_calls_app. unfold hook_calls. simpl. now destruct (is_hook e). Qed.

Lemma calls_of_emit (k : HookKind) (e : Event) (w : World) :
  calls_of k (emit e w) = (calls_of k w + if is_hook_of k e then 1 else 0)%nat.
Proof.
  unfold emit. rewrite calls_of_app. unfold calls_of. simpl.
  now destruct (is_hook_of k e).
Qed.

Lemma ret_inv (s : St) (c' : option Context) (w' : World) :
  ret s = Some (c', w') -> w' = snd s /\ c' = Some (fst s).
Proof. unfold ret. intros H. injection H as <- <-. auto. Qed.

Section Properties.

Variable hooks : HookTable.
Variable ClientDo : ClientDoT.
Variable StatusCodeMap : StatusCodeMapT.
Variable Create : CreateT.

Local Abbreviation Do := (Do hooks ClientDo StatusCodeMap).
Local Abbreviation Upload := (Upload hooks ClientDo StatusCodeMap Create).
Local Abbreviation entry := (entry hooks).
Local Abbreviation answer := (answer hooks ClientDo).
Local Abbreviation answered := (answered hooks ClientDo).
Local Abbreviation keeps := (keeps_counters hooks).
Local Abbreviation Upload_answer := (Upload_answer ClientDo).
Local Abbreviation Upload_answered := (Upload_answered ClientDo).

(** *** The blocks before the attempt *)

Lemma Do_start_counters (s : St) :
  keeps ->
  times (fst (Do_start hooks s)) = times (fst s) /\
  MaxTimes (fst (Do_start hooks s)) = MaxTimes (fst s).
Proof.
  intros K. unfold Do_start.
  destruct (times (fst s) =? 0); [|tauto].
  destruct (StartFunc (fst s)); [|tauto]. apply K.
Qed.

Lemma Do_end_counters (s : St) :
  keeps ->
  times (fst (Do_end hooks s)) = times (fst s) /\
  MaxTimes (fst (Do_end hooks s)) = MaxTimes (fst s).
Proof.
  intros K. unfold Do_end.
  destruct (times (fst s) =? MaxTimes (fst s)); [|tauto].
  destruct (EndFunc (fst s)); [|tauto]. apply K.
Qed.

Lemma Do_start_attempts (s : St) :
  attempts (snd (Do_start hooks s)) = attempts (snd s).
Proof.
  unfold Do_start.
  destruct (times (fst s) =? 0); [|reflexivity].
  destruct (StartFunc (fst s)); [|reflexivity].
  simpl. rewrite attempts_emit. simpl. lia.
Qed.

Lemma Do_end_attempts (s : St) :
  attempts (snd (Do_end hooks s)) = attempts (snd s).
Proof.
  unfold Do_end.
  destruct (times (fst s) =? MaxTimes (fst s)); [|reflexivity].
  destruct (EndFunc (fst s)); [|reflexivity].
  simpl. rewrite attempts_emit. simpl. lia.
Qed.

Lemma entry_attempts (s : St) : attempts (snd (entry s)) = attempts (snd s).
Proof.
  unfold gathertool.entry. simpl.
  now rewrite Do_end_attempts, Do_start_attempts.
Qed.

Lemma entry_counters (s : St) :
  keeps ->
  int_min <= times (fst s) + 1 <= int_max ->
  times (fst (entry s)) = times (fst s) + 1 /\
  MaxTimes (fst (entry s)) = MaxTimes (fst s).
Proof.
  intros K R. unfold gathertool.entry. simpl.
  destruct (Do_end_counters (Do_start hooks s) K) as [T M].
  destruct (Do_start_counters s K) as [T' M'].
  rewrite T, M, T', M'. split; [|reflexivity].
  now apply wrap_int_id.
Qed.

(** The blocks before the attempt call only the start and end hooks. *)
Lemma Do_start_calls (k : HookKind) (s : St) :
  k <> KStart -> calls_of k (snd (Do_start hooks s)) = calls_of k (snd s).
Proof.
  intros NS. unfold Do_start.
  destruct (times (fst s) =? 0); [|reflexivity].
  destruct (StartFunc (fst s)); [|reflexivity].
  unfold call. cbn [snd]. rewrite calls_of_emit.
  destruct k; simpl; try lia; congruence.
Qed.

Lemma Do_end_calls (k : HookKind) (s : St) :
  k <> KEnd -> calls_of k (snd (Do_end hooks s)) = calls_of k (snd s).
Proof.
  intros NE. unfold Do_end.
  destruct (times (fst s) =? MaxTimes (fst s)); [|reflexivity].
  destruct (EndFunc (fst s)); [|reflexivity].
  unfold call. cbn [snd]. rewrite calls_of_emit.
  destruct k; simpl; try lia; congruence.
Qed.

Lemma entry_calls (k : HookKind) (s : St) :
  k <> KStart -> k <> KEnd ->
  calls_of k (snd (entry s)) = calls_of k (snd s).
Proof.
  intros NS NE. unfold gathertool.entry. cbn [snd].
  now rewrite Do_end_calls, Do_start_calls.
Qed.

Lemma answered_counters (s : St) :
  times (fst (answered s)) = times (fst (entry s)) /\
  MaxTimes (fst (answered s)) = MaxTimes (fst (entry s)).
Proof.
  unfold gathertool.answered, attempt. simpl.
  destruct (result _); simpl; tauto.
Qed.

Lemma answered_world (s : St) :
  snd (answered s) =
  snd (entry s) ++ [EvNet (Client_ (fst (entry s))) (Req (fst (entry s)))].
Proof. reflexivity. Qed.

Lemma answered_attempts (s : St) :
  attempts (snd (answered s)) = S (attempts (snd s)).
Proof.
  rewrite answered_world, attempts_app, entry_attempts. unfold attempts. simpl. lia.
Qed.

(** One entry of [Do], in terms of the derived notions. *)
Lemma Do_exceeded (fuel : nat) (c : Context) (w : World) :
  times (fst (entry (c, w))) > MaxTimes (fst (entry (c, w))) ->
  Do (S fuel) (Some c) w =
  ret (fst (entry (c, w)),
       snd (entry (c, w)) ++ [EvLog (LogBudget (MaxTimes (fst (entry (c, w)))))]).
Proof.
  intros H. cbn [gathertool.Do].
  change (count _) with (fst (entry (c, w))).
  change (snd (Do_end hooks (Do_start hooks (c, w)))) with (snd (entry (c, w))).
  destruct (Z.gtb_spec (times (fst (entry (c, w)))) (MaxTimes (fst (entry (c, w)))));
    [reflexivity | lia].
Qed.

(** *** The deferred close *)

Lemma close_body_world (s : St) :
  snd (close_body s) = snd s \/ snd (close_body s) = snd s ++ [EvClose].
Proof. unfold close_body. destruct (Resp (fst s)); simpl; auto. Qed.

Lemma close_body_attempts (s : St) :
  attempts (snd (close_body s)) = attempts (snd s).
Proof.
  destruct (close_body_world s) as [E | E]; rewrite E; [reflexivity|].
  rewrite attempts_app. unfold attempts. simpl. lia.
Qed.


Lemma close_body_calls (k : HookKind) (s : St) :
  calls_of k (snd (close_body s)) = calls_of k (snd s).
Proof.
  destruct (close_body_world s) as [E | E]; rewrite E; [reflexivity|].
  rewrite calls_of_app. unfold calls_of. destruct k; simpl; lia.
Qed.

Lemma close_body_counters (s : St) :
  times (fst (close_body s)) = times (fst s) /\
  MaxTimes (fst (close_body s)) = MaxTimes (fst s).
Proof. unfold close_body. destruct (Resp (fst s)); simpl; tauto. Qed.

Lemma deferred_ret (s : St) : deferred (ret s) = ret (close_body s).
Proof. destruct s. reflexivity. Qed.

(** *** [ioutil.ReadAll] returns everything the reader delivers *)

Lemma ReadAll_from_content (acc : list byte) (r : Reader) :
  fst (fst (ReadAll_from acc r)) = acc ++ content r.
Proof.
  revert acc. induction r as [|[chunk e] rest IH]; intros acc; simpl.
  - now rewrite app_nil_r.
  - destruct e; simpl; [|reflexivity|reflexivity].
    now rewrite IH, app_assoc.
Qed.

Lemma ReadAll_content (r : Reader) : fst (fst (ReadAll r)) = content r.
Proof. unfold ReadAll. now rewrite ReadAll_from_content. Qed.

(** Brings the goal [Do (S fuel) (Some c) w = _] to the point after the
    attempt, the budget test having passed by [H]. *)
Ltac after_attempt c w H :=
  cbn [gathertool.Do];
  change (count (fst (Do_end hooks (Do_start hooks (c, w)))))
    with (fst (entry (c, w)));
  change (snd (Do_end hooks (Do_start hooks (c, w))))
    with (snd (entry (c, w)));
  destruct (Z.gtb_spec (times (fst (entry (c, w)))) (MaxTimes (fst (entry (c, w)))));
  [ exfalso; lia | ];
  change (attempt ClientDo true (fst (entry (c, w)), snd (entry (c, w))))
    with (answer (c, w), (fst (answered (c, w)), snd (answered (c, w))));
  cbv iota beta.

(** C6.  An attempt that ends in a transport error without the timeout
    text is final: [Do] logs the error, calls [FailedFunc] when that field
    is set, and returns.  The entry has made one network attempt and there
    is no recursive call. *)
Theorem Do_transport_error_is_final
  (fuel : nat) (c : Context) (w : World) (r : option Response) (e : string) :
  times (fst (entry (c, w))) <= MaxTimes (fst (entry (c, w))) ->
  answer (c, w) = TransportErr r e ->
  Contains e timeout_marker = false ->
  let c1 := fst (answered (c, w)) in
  let w1 := snd (answered (c, w)) ++ [EvLog (LogErr e)] in
  Do (S fuel) (Some c) w =
    match FailedFunc c1 with
    | Some h => Some (Some (hooks h c1), w1 ++ [EvHook KFailed h])
    | None => Some (Some c1, w1)
    end
  /\ forall c' w', Do (S fuel) (Some c) w = Some (c', w') ->
       attempts w' = S (attempts w) /\ calls_of KRetry w' = calls_of KRetry w.
Proof.
  intros B A T c1 w1.
  assert (E : Do (S fuel) (Some c) w =
    match FailedFunc c1 with
    | Some h => Some (Some (hooks h c1), w1 ++ [EvHook KFailed h])
    | None => Some (Some c1, w1)
    end).
  { after_attempt c w B. rewrite A, T. fold c1.
    destruct (FailedFunc c1); reflexivity. }
  split; [exact E|].
  intros c' w' R. rewrite E in R.
  assert (W1 : attempts w1 = S (attempts w)).
  { unfold w1. rewrite attempts_app, answered_attempts. unfold attempts. simpl. lia. }
  assert (W2 : calls_of KRetry w1 = calls_of KRetry w).
  { unfold w1. rewrite answered_world, !calls_of_app, entry_calls by discriminate.
    unfold calls_of. simpl. lia. }
  destruct (FailedFunc c1); inversion R; subst; clear R.
  - rewrite attempts_app, calls_of_app, W1, W2. unfold attempts, calls_of. simpl. lia.
  - now rewrite W1, W2.
Qed.

(** C5, as the code has it.  When the transport error carries the timeout
    text, [Do] looks at [RetryFunc] only: with the field set it calls the
    hook and recurses into [Do]; with the field unset it returns at once,
    without a recursive call.  Neither case looks at [StatusCodeMap]: the
    states [answered] are built without it. *)
Theorem Do_timeout_retries_through_RetryFunc
  (fuel : nat) (c : Context) (w : World) (r : option Response) (e : string) :
  times (fst (entry (c, w))) <= MaxTimes (fst (entry (c, w))) ->
  answer (c, w) = TransportErr r e ->
  Contains e timeout_marker = true ->
  let c1 := fst (answered (c, w)) in
  let w1 := snd (answered (c, w)) in
  Do (S fuel) (Some c) w =
    match RetryFunc c1 with
    | Some h => Do fuel (Some (hooks h c1)) (w1 ++ [EvHook KRetry h])
    | None => Some (Some c1, w1)
    end.
Proof.
  intros B A T c1 w1.
  after_attempt c w B. rewrite A, T. fold c1 w1.
  destruct (RetryFunc c1); reflexivity.
Qed.

(** C3.  The failure class of the table is the one the [switch] of [Do]
    spells [file].  For a received response whose status the table maps to
    it, [Do] calls [FailedFunc] when the field is set and returns: one
    network attempt, no call of [RetryFunc] or [SucceedFunc]. *)
Theorem Do_file_status_calls_FailedFunc
  (fuel : nat) (c : Context) (w : World) (resp : Response) :
  times (fst (entry (c, w))) <= MaxTimes (fst (entry (c, w))) ->
  answer (c, w) = Received resp ->
  StatusCodeMap (StatusCode resp) = Some "file" ->
  let c1 := fst (answered (c, w)) in
  let w1 := snd (answered (c, w)) in
  Do (S fuel) (Some c) w =
    ret (close_body
           match FailedFunc c1 with
           | Some h => (hooks h c1, w1 ++ [EvHook KFailed h])
           | None => (c1, w1)
           end)
  /\ forall c' w', Do (S fuel) (Some c) w = Some (c', w') ->
       attempts w' = S (attempts w)
       /\ calls_of KRetry w' = calls_of KRetry w
       /\ calls_of KSucceed w' = calls_of KSucceed w
       /\ calls_of KFailed w' =
          (calls_of KFailed w + match FailedFunc c1 with Some _ => 1 | None => 0 end)%nat.
Proof.
  intros B A T c1 w1.
  assert (E : Do (S fuel) (Some c) w =
    ret (close_body
           match FailedFunc c1 with
           | Some h => (hooks h c1, w1 ++ [EvHook KFailed h])
           | None => (c1, w1)
           end)).
  { after_attempt c w B. rewrite A, T. fold c1 w1. cbn [String.eqb Ascii.eqb Bool.eqb andb].
    destruct (FailedFunc c1); now rewrite <- deferred_ret. }
  split; [exact E|].
  intros c' w' R. rewrite E in R. apply ret_inv in R as [-> _]; clear E.
  rewrite close_body_attempts, !close_body_calls.
  assert (W : forall k, k <> KStart -> k <> KEnd -> calls_of k w1 = calls_of k w).
  { intros k NS NE. unfold w1. rewrite answered_world, calls_of_app, entry_calls by assumption.
    unfold calls_of. destruct k; simpl; lia. }
  assert (N : attempts w1 = S (attempts w)) by apply answered_attempts.
  destruct (FailedFunc c1); cbn [snd];
    rewrite ?attempts_app, ?calls_of_app, ?N, !W by discriminate;
    unfold attempts, calls_of; simpl; lia.
Qed.


(** *** One entry of [Do]: it returns, or it recurses once *)

Ltac count_events :=
  unfold call, Println; cbn [fst snd];
  rewrite ?close_body_attempts; cbn [fst snd];
  rewrite ?attempts_emit; cbn [is_net]; lia.

Lemma Do_step (fuel : nat) (c : Context) (w : World) :
  keeps ->
  times (fst (entry (c, w))) <= MaxTimes (fst (entry (c, w))) ->
  (exists s, Do (S fuel) (Some c) w = ret s /\ attempts (snd s) = S (attempts w))
  \/
  (exists c2 w2,
      times c2 = times (fst (entry (c, w))) /\
      MaxTimes c2 = MaxTimes (fst (entry (c, w))) /\
      attempts w2 = S (attempts w) /\
      (Do (S fuel) (Some c) w = Do fuel (Some c2) w2 \/
       Do (S fuel) (Some c) w = deferred (Do fuel (Some c2) w2))).
Proof.
  intros K B.
  destruct (answered_counters (c, w)) as [CT CM].
  pose proof (answered_attempts (c, w)) as NA. cbn [snd] in NA.
  after_attempt c w B.
  set (c1 := fst (answered (c, w))) in *.
  set (w1 := snd (answered (c, w))) in *.
  destruct (answer (c, w)) as [r e | resp].
  - destruct (Contains e timeout_marker).
    + destruct (RetryFunc c1) as [h|].
      * right. exists (hooks h c1), (emit (EvHook KRetry h) w1).
        destruct (K h c1) as [KT KM].
        repeat split; [congruence | congruence | count_events | now left].
      * left. exists (c1, w1). split; [reflexivity | exact NA].
    + destruct (FailedFunc c1) as [h|]; left; eexists; (split; [reflexivity|]); count_events.
  - destruct (StatusCodeMap (StatusCode resp)) as [v|].
    + destruct (String.eqb v "success").
      { destruct (ReadAll (Body resp)) as [[body err] rest].
        destruct err as [e|].
        - left. eexists. split; [apply deferred_ret|]. count_events.
        - match goal with |- context [SucceedFunc ?x] => destruct (SucceedFunc x) as [h|] end;
            left; eexists; (split; [apply deferred_ret|]); count_events. }
      destruct (String.eqb v "retry").
      { right.
        destruct (RetryFunc c1) as [h|].
        - eexists. eexists. destruct (K h c1) as [KT KM].
          split; [|split; [|split; [|right; reflexivity]]];
            cbn [fst snd call]; [congruence | congruence | count_events].
        - eexists. eexists.
          split; [|split; [|split; [|right; reflexivity]]];
            cbn [fst snd]; [congruence | congruence | count_events]. }
      destruct (String.eqb v "file").
      { destruct (FailedFunc c1) as [h|];
          left; eexists; (split; [apply deferred_ret|]); count_events. }
      destruct (String.eqb v "start").
      { left; eexists; (split; [apply deferred_ret|]); count_events. }
      destruct (String.eqb v "end");
        left; eexists; (split; [apply deferred_ret|]); count_events.
    + left; eexists; (split; [apply deferred_ret|]); count_events.
Qed.

(** The whole chain of entries: with hooks that keep the counters, [Do]
    returns once it has fuel for the attempts the budget leaves plus the
    last entry, and it has made no more attempts than the budget leaves. *)
Lemma Do_chain (K : keeps) :
  forall (fuel : nat) (c : Context) (w : World),
    int_min <= times c + 1 <= int_max ->
    MaxTimes c < int_max ->
    (Z.to_nat (MaxTimes c - times c) < fuel)%nat ->
    exists c' w',
      Do fuel (Some c) w = Some (Some c', w') /\
      (attempts w' <= attempts w + Z.to_nat (MaxTimes c - times c))%nat.
Proof.
  induction fuel as [|fuel IH]; intros c w R M F; [lia|].
  destruct (entry_counters (c, w) K R) as [ET EM]. cbn [fst] in ET, EM.
  destruct (Z_le_gt_dec (times (fst (entry (c, w)))) (MaxTimes (fst (entry (c, w)))))
    as [B | B].
  - destruct (Do_step fuel c w K B) as [[s [E N]] | [c2 [w2 [T2 [M2 [N2 E]]]]]].
    + exists (fst s), (snd s). split; [exact E | lia].
    + assert (R2 : int_min <= times c2 + 1 <= int_max) by lia.
      assert (M2' : MaxTimes c2 < int_max) by lia.
      assert (F2 : (Z.to_nat (MaxTimes c2 - times c2) < fuel)%nat) by lia.
      destruct (IH c2 w2 R2 M2' F2) as [c' [w' [E' N']]].
      destruct E as [E | E]; rewrite E, E'.
      * exists c', w'. split; [reflexivity | lia].
      * exists (fst (close_body (c', w'))), (snd (close_body (c', w'))).
        split; [reflexivity|]. rewrite close_body_attempts. cbn [snd]. lia.
  - rewrite (Do_exceeded fuel c w B).
    exists (fst (entry (c, w))),
      (snd (entry (c, w)) ++ [EvLog (LogBudget (MaxTimes (fst (entry (c, w)))))]).
    split; [reflexivity|].
    rewrite attempts_app, entry_attempts. unfold attempts. simpl. lia.
Qed.

Lemma deferred_inv (res : option (option Context * World))
      (c' : option Context) (w' : World) :
  deferred res = Some (c', w') ->
  exists c0 w0, res = Some (c0, w0) /\ attempts w' = attempts w0.
Proof.
  destruct res as [[[c0|] w0]|]; intros H.
  - exists (Some c0), w0. split; [reflexivity|].
    change (deferred (Some (Some c0, w0))) with (ret (close_body (c0, w0))) in H.
    apply ret_inv in H as [-> _]. apply close_body_attempts.
  - exists None, w0. split; [reflexivity|]. cbn in H. now injection H as _ <-.
  - discriminate H.
Qed.

(** Whatever the fuel, a chain that returns has made no more attempts than
    the budget leaves. *)
Lemma Do_bound (K : keeps) :
  forall (fuel : nat) (c : Context) (w : World) (c' : option Context) (w' : World),
    int_min <= times c + 1 <= int_max ->
    MaxTimes c < int_max ->
    Do fuel (Some c) w = Some (c', w') ->
    (attempts w' <= attempts w + Z.to_nat (MaxTimes c - times c))%nat.
Proof.
  induction fuel as [|fuel IH]; intros c w c' w' R M E; [discriminate E|].
  destruct (entry_counters (c, w) K R) as [ET EM]. cbn [fst] in ET, EM.
  destruct (Z_le_gt_dec (times (fst (entry (c, w)))) (MaxTimes (fst (entry (c, w)))))
    as [B | B].
  - destruct (Do_step fuel c w K B) as [[s [E1 N]] | [c2 [w2 [T2 [M2 [N2 E1]]]]]].
    + rewrite E1 in E. apply ret_inv in E as [-> _]. lia.
    + assert (R2 : int_min <= times c2 + 1 <= int_max) by lia.
      assert (M2' : MaxTimes c2 < int_max) by lia.
      destruct E1 as [E1 | E1]; rewrite E1 in E.
      * pose proof (IH c2 w2 c' w' R2 M2' E). lia.
      * apply deferred_inv in E as [c0 [w0 [E0 N0]]].
        pose proof (IH c2 w2 c0 w0 R2 M2' E0). lia.
  - rewrite (Do_exceeded fuel c w B) in E. apply ret_inv in E as [-> _].
    cbn [snd]. rewrite attempts_app, entry_attempts. unfold attempts. simpl. lia.
Qed.

Lemma entry_world_later (c : Context) (w : World) :
  times c <> 0 ->
  snd (entry (c, w)) = w \/ exists h, snd (entry (c, w)) = w ++ [EvHook KEnd h].
Proof.
  intros NZ. unfold gathertool.entry, Do_start. cbn [fst snd].
  destruct (Z.eqb_spec (times c) 0) as [Z0 | _]; [contradiction|].
  unfold Do_end. cbn [fst snd].
  destruct (times c =? MaxTimes c); [|now left].
  destruct (EndFunc c) as [h|]; [|now left].
  right. now exists h.
Qed.

(** C1.  With hooks that leave the counter and the budget alone, a
    context whose budget is [MaxTimes = k], [0 <= k], makes at most [k]
    network attempts over the whole chain of recursive calls: the chain
    ends within [k + 1] entries, and a chain that has returned, whatever the
    bound on the recursion, has made at most [k] attempts.  On an entry
    that finds the counter at [k] or beyond, the
    incremented counter exceeds [k]: after its start and end blocks [Do]
    only logs that the budget is spent and returns. *)
Theorem Do_attempts_within_budget (c : Context) (w : World) (k : Z) :
  keeps ->
  MaxTimes c = k ->
  0 <= k < int_max ->
  0 <= times c < int_max ->
  (forall fuel, (Z.to_nat k < fuel)%nat ->
     exists c' w',
       Do fuel (Some c) w = Some (Some c', w') /\
       (attempts w' <= attempts w + Z.to_nat k)%nat)
  /\
  (forall fuel c' w',
     Do fuel (Some c) w = Some (c', w') ->
     (attempts w' <= attempts w + Z.to_nat k)%nat)
  /\
  (forall fuel, k <= times c ->
     Do (S fuel) (Some c) w =
       Some (Some (fst (entry (c, w))),
             snd (entry (c, w)) ++ [EvLog (LogBudget k)])
     /\ attempts (snd (entry (c, w)) ++ [EvLog (LogBudget k)]) = attempts w).
Proof.
  intros K M Rk Rt.
  assert (Rc : int_min <= times c + 1 <= int_max) by (unfold int_min, int_max in *; lia).
  assert (Mc : MaxTimes c < int_max) by lia.
  split; [|split].
  - intros fuel F.
    assert (F' : (Z.to_nat (MaxTimes c - times c) < fuel)%nat) by lia.
    destruct (Do_chain K fuel c w Rc Mc F') as [c' [w' [E N]]].
    exists c', w'. split; [exact E | lia].
  - intros fuel c' w' E.
    pose proof (Do_bound K fuel c w c' w' Rc Mc E). lia.
  - intros fuel X.
    assert (R : int_min <= times (fst (c, w)) + 1 <= int_max)
      by (cbn [fst]; unfold int_min, int_max in *; lia).
    destruct (entry_counters (c, w) K R) as [ET EM]. cbn [fst] in ET, EM.
    split.
    + rewrite Do_exceeded by lia. unfold ret. cbn [fst snd]. now rewrite EM, M.
    + rewrite attempts_app, entry_attempts. unfold attempts. simpl. lia.
Qed.

(** C2, as the code has it.  On an entry that finds the counter equal to
    [MaxTimes], with [EndFunc] set, [Do] calls [EndFunc] and then, the
    incremented counter exceeding the budget, logs that the budget is spent
    and returns: this entry makes no network attempt. *)
Theorem Do_EndFunc_then_budget_spent
  (fuel : nat) (c : Context) (w : World) (h : HookId) :
  keeps ->
  0 <= MaxTimes c < int_max ->
  times c = MaxTimes c ->
  EndFunc (fst (Do_start hooks (c, w))) = Some h ->
  let s := Do_start hooks (c, w) in
  let w' := snd s ++ [EvHook KEnd h; EvLog (LogBudget (MaxTimes c))] in
  Do (S fuel) (Some c) w = Some (Some (count (hooks h (fst s))), w')
  /\ attempts w' = attempts w.
Proof.
  intros K M T E s w'.
  destruct (Do_start_counters (c, w) K) as [ST SM]. cbn [fst] in ST, SM. fold s in ST, SM, E.
  assert (R : int_min <= times (fst (c, w)) + 1 <= int_max)
    by (cbn [fst]; unfold int_min, int_max in *; lia).
  destruct (entry_counters (c, w) K R) as [ET EM]. cbn [fst] in ET, EM.
  assert (EN : entry (c, w) = (count (hooks h (fst s)), snd s ++ [EvHook KEnd h])).
  { unfold gathertool.entry, Do_end. fold s.
    destruct (Z.eqb_spec (times (fst s)) (MaxTimes (fst s))) as [_ | NE]; [|congruence].
    rewrite E. reflexivity. }
  split.
  - rewrite Do_exceeded by lia. rewrite EM. rewrite EN. unfold ret, w'. cbn [fst snd].
    now rewrite <- app_assoc.
  - unfold w'. rewrite attempts_app. unfold s. rewrite Do_start_attempts.
    unfold attempts. simpl. lia.
Qed.

(** C8.  When the response to the last attempt the budget allows (the
    counter reaches [MaxTimes] on this entry) has a status the table maps to
    [retry], [RetryFunc] is called after that attempt, on the context the
    attempt left, and the recursive call is made on the context the hook
    returns.  That call finds the budget spent: it calls [EndFunc] when the
    field is set, increments the counter to [MaxTimes + 1], logs that the
    budget is spent and returns, so that no network attempt follows the
    one of this entry; the deferred close then runs. *)
Theorem Do_retry_on_last_attempt
  (fuel : nat) (c : Context) (w : World) (resp : Response) (h : HookId) :
  keeps ->
  1 <= MaxTimes c < int_max ->
  times c = MaxTimes c - 1 ->
  answer (c, w) = Received resp ->
  StatusCodeMap (StatusCode resp) = Some "retry" ->
  RetryFunc (fst (answered (c, w))) = Some h ->
  let c1 := fst (answered (c, w)) in
  let c2 := hooks h c1 in
  let c3 := count match EndFunc c2 with
                  | Some e => hooks e c2
                  | None => c2
                  end in
  let w' := snd (entry (c, w))
            ++ [EvNet (Client_ (fst (entry (c, w)))) (Req (fst (entry (c, w))));
                EvLog (LogRetryStatus (MaxTimes c) (StatusCode resp));
                EvHook KRetry h]
            ++ match EndFunc c2 with
               | Some e => [EvHook KEnd e]
               | None => []
               end
            ++ [EvLog (LogBudget (MaxTimes c))] in
  Do (S (S fuel)) (Some c) w = ret (close_body (c3, w'))
  /\ times c3 = MaxTimes c + 1
  /\ attempts (snd (close_body (c3, w'))) = S (attempts w)
  /\ calls_of KRetry (snd (close_body (c3, w'))) = S (calls_of KRetry w).
Proof.
  intros K M T A SC RF. cbv zeta.
  assert (R : int_min <= times (fst (c, w)) + 1 <= int_max)
    by (cbn [fst]; unfold int_min, int_max in *; lia).
  destruct (entry_counters (c, w) K R) as [ET EM]. cbn [fst] in ET, EM.
  destruct (answered_counters (c, w)) as [CT CM].
  assert (B : times (fst (entry (c, w))) <= MaxTimes (fst (entry (c, w)))) by lia.
  pose proof (answered_world (c, w)) as AW.
  remember (fst (answered (c, w))) as c1 eqn:C1.
  remember (hooks h c1) as c2 eqn:C2.
  destruct (K h c1) as [KT KM]. rewrite <- C2 in KT, KM.
  assert (T1 : times c1 = MaxTimes c) by lia.
  assert (T2 : times c2 = MaxTimes c) by lia.
  assert (M2 : MaxTimes c2 = MaxTimes c) by lia.
  remember (count match EndFunc c2 with
                  | Some e => hooks e c2
                  | None => c2
                  end) as c3 eqn:C3.
  remember (match EndFunc c2 with
            | Some e => [EvHook KEnd e]
            | None => []
            end) as mid eqn:MID.
  remember (snd (answered (c, w))
            ++ [EvLog (LogRetryStatus (MaxTimes c) (StatusCode resp)); EvHook KRetry h])
    as w2 eqn:W2.
  assert (E1 : Do (S (S fuel)) (Some c) w = deferred (Do (S fuel) (Some c2) w2)).
  { after_attempt c w B. rewrite A, SC. cbn [String.eqb Ascii.eqb Bool.eqb andb].
    rewrite <- C1, RF. unfold call, Println, emit. cbn [fst snd].
    rewrite <- app_assoc. cbn [app].
    rewrite T1, <- C2, <- W2. reflexivity. }
  assert (EN : entry (c2, w2) = (c3, w2 ++ mid)).
  { unfold gathertool.entry, Do_start. cbn [fst snd].
    destruct (Z.eqb_spec (times c2) 0) as [Z0 | _]; [lia|].
    unfold Do_end, call, emit. cbn [fst snd].
    destruct (Z.eqb_spec (times c2) (MaxTimes c2)) as [_ | NE]; [|lia].
    rewrite C3, MID. destruct (EndFunc c2); cbn [fst snd]; [reflexivity|].
    now rewrite app_nil_r. }
  assert (T3 : times c3 = MaxTimes c + 1).
  { rewrite C3.
    destruct (EndFunc c2) as [e|]; [destruct (K e c2) as [XT XM]|];
      cbn [count times set_times]; rewrite wrap_int_id;
      unfold int_min, int_max in *; lia. }
  assert (M3 : MaxTimes c3 = MaxTimes c).
  { rewrite C3.
    destruct (EndFunc c2) as [e|]; [destruct (K e c2) as [XT XM]|];
      cbn [count MaxTimes set_times]; lia. }
  assert (GT : times (fst (entry (c2, w2))) > MaxTimes (fst (entry (c2, w2)))).
  { replace (fst (entry (c2, w2))) with c3 by (symmetry; exact (f_equal fst EN)). lia. }
  assert (E2 : Do (S fuel) (Some c2) w2
               = ret (c3, (w2 ++ mid) ++ [EvLog (LogBudget (MaxTimes c))])).
  { rewrite (Do_exceeded fuel c2 w2 GT).
    exact (eq_trans
             (f_equal (fun s : St =>
                         ret (fst s,
                              snd s ++ [EvLog (LogBudget (MaxTimes (fst s)))]))
                      EN)
             (f_equal (fun m =>
                         ret (c3, (w2 ++ mid) ++ [EvLog (LogBudget m)]))
                      M3)). }
  assert (W : (w2 ++ mid) ++ [EvLog (LogBudget (MaxTimes c))] =
              snd (entry (c, w))
              ++ [EvNet (Client_ (fst (entry (c, w)))) (Req (fst (entry (c, w))));
                  EvLog (LogRetryStatus (MaxTimes c) (StatusCode resp));
                  EvHook KRetry h]
              ++ mid ++ [EvLog (LogBudget (MaxTimes c))]).
  { rewrite W2, AW, <- !app_assoc. reflexivity. }
  rewrite W in E2. rewrite E2, deferred_ret in E1.
  split; [exact E1|]. split; [exact T3|].
  rewrite close_body_attempts, close_body_calls. cbn [snd].
  rewrite !attempts_app, !calls_of_app, entry_attempts,
    (entry_calls KRetry (c, w)) by discriminate.
  cbn [snd]. rewrite MID.
  destruct (EndFunc c2); unfold attempts, calls_of; cbn; lia.
Qed.

(** C10.  On a nil receiver [Do] and [Upload] log a line and return: no
    hook is called and no network attempt is made. *)
Theorem nil_receiver_returns (fuel : nat) (filePath : string) (w : World) :
  Do (S fuel) None w = Some (None, w ++ [EvLog LogNilObject])
  /\ Upload fuel filePath None w = Some (None, w ++ [EvLog LogNilObject])
  /\ attempts (w ++ [EvLog LogNilObject]) = attempts w
  /\ hook_calls (w ++ [EvLog LogNilObject]) = hook_calls w.
Proof.
  repeat split.
  - rewrite attempts_app. unfold attempts. simpl. lia.
  - rewrite hook_calls_app. unfold hook_calls. simpl. lia.
Qed.

(** *** The transfer loop of [Upload] *)





Lemma Upload_answered_world (c : Context) (w : World) :
  snd (Upload_answered (c, w)) = w ++ [EvNet (Client_ (count c)) (Req (count c))].
Proof. reflexivity. Qed.


End Properties.

(** ** The cookie pool *)

Lemma AddAll_cookie (cks : list Cookie) :
  forall p, mux p = false ->
    cookie (AddAll cks p) = cookie p ++ cks /\ mux (AddAll cks p) = false.
Proof.
  induction cks as [|ck rest IH]; intros p F; cbn [AddAll].
  - now rewrite app_nil_r.
  - unfold Add. rewrite F. cbn [snd].
    destruct (IH (mkPool (cookie p ++ [ck]) false) eq_refl) as [C M].
    rewrite C, M. cbn [cookie]. now rewrite <- app_assoc.
Qed.

(** C4, as the code has it.  After [Add] was called on the cookies [cks],
    at least one, [Get] returns the cookie at an index taken by
    [rand.Int63n] in [[0, len)], one of those added.  On the empty pool
    [rand.Int63n] panics on its argument [0]: [Get] returns no error value,
    and the panic comes before the slice is accessed. *)
Theorem Get_returns_an_added_cookie (cks : list Cookie) (v : Z) :
  cks <> [] ->
  let n := v mod Z.of_nat (List.length cks) in
  (exists ck,
      fst (Get v (AddAll cks CookiePool)) = Returned ck
      /\ nth_error cks (Z.to_nat n) = Some ck
      /\ In ck cks
      /\ 0 <= n < Z.of_nat (List.length cks))
  /\ fst (Get v CookiePool) = Panicked "invalid argument to Int63n".
Proof.
  intros NE n. split; [|reflexivity].
  destruct (AddAll_cookie cks CookiePool eq_refl) as [C M]. cbn [cookie CookiePool app] in C.
  assert (L : 0 < Z.of_nat (List.length cks)) by (destruct cks; [congruence | cbn; lia]).
  assert (R : 0 <= n < Z.of_nat (List.length cks)) by (apply Z.mod_pos_bound; exact L).
  assert (I : (Z.to_nat n < List.length cks)%nat) by lia.
  destruct (nth_error cks (Z.to_nat n)) as [ck|] eqn:NTH;
    [|apply nth_error_None in NTH; lia].
  exists ck. repeat split; try lia.
  - unfold Get, Int63n. rewrite M, C.
    destruct (Z.leb_spec (Z.of_nat (List.length cks)) 0) as [X | _]; [lia|].
    fold n. now rewrite NTH.
  - eapply nth_error_In; exact NTH.
Qed.

(** ** The properties on concrete runs *)

Import Examples.

Lemma quiet_hooks_keep_counters : keeps_counters quiet_hooks.
Proof. intros h c. split; reflexivity. Defined.

Lemma proxy_hooks_keep_counters : keeps_counters proxy_hooks.
Proof.
  intros h c. unfold proxy_hooks. destruct (Nat.eqb h 3); split; reflexivity.
Defined.

(** C1 on a context with a budget of two attempts whose every response has
    a status mapped to [retry]. *)
Lemma Do_attempts_within_budget_witness :
  let c := fresh 2 None None (Some 3%nat) None None in
  keeps_counters quiet_hooks
  /\ MaxTimes c = 2
  /\ 0 <= 2 < int_max
  /\ 0 <= times c < int_max
  /\ exists c' w',
       Do quiet_hooks (always (Received (resp 500 ok_body))) table 3 (Some c) []
       = Some (Some c', w')
       /\ (attempts w' <= attempts [] + Z.to_nat 2)%nat.
Proof.
  intros c.
  assert (K : keeps_counters quiet_hooks) by exact quiet_hooks_keep_counters.
  assert (M : MaxTimes c = 2) by reflexivity.
  assert (Rk : 0 <= 2 < int_max) by (unfold int_max; lia).
  assert (Rt : 0 <= times c < int_max) by (unfold int_max; simpl; lia).
  refine (conj K (conj M (conj Rk (conj Rt _)))).
  destruct (Do_attempts_within_budget quiet_hooks
              (always (Received (resp 500 ok_body))) table c [] 2 K M Rk Rt)
    as [Chain _].
  apply (Chain 3%nat). simpl. lia.
Defined.

(** C2 as stated fails: with a budget of one attempt and every response
    mapped to [retry], [EndFunc] is called after the only network attempt,
    on the entry that finds the counter equal to [MaxTimes], and that entry
    makes no attempt. *)
Lemma EndFunc_runs_after_the_last_attempt :
  let c := fresh 1 None None (Some 3%nat) None (Some 5%nat) in
  let c1 := set_times 1 c in
  (exists c',
      Do quiet_hooks (always (Received (resp 500 ok_body))) table 5 (Some c) []
      = Some (Some c',
              [EvNet 0%nat req0; EvLog (LogRetryStatus 1 500); EvHook KRetry 3%nat;
               EvHook KEnd 5%nat; EvLog (LogBudget 1); EvClose]))
  /\ EndFunc c1 = Some 5%nat
  /\ times c1 = MaxTimes c1
  /\ exists c'',
      Do quiet_hooks (always (Received (resp 500 ok_body))) table 5 (Some c1) []
      = Some (Some c'', [EvHook KEnd 5%nat; EvLog (LogBudget 1)])
      /\ attempts [EvHook KEnd 5%nat; EvLog (LogBudget 1)] = 0%nat.
Proof.
  intros c c1. split; [|split; [|split]].
  - eexists. vm_compute. reflexivity.
  - reflexivity.
  - reflexivity.
  - eexists. split; [vm_compute; reflexivity | reflexivity].
Qed.

(** C2, as the code has it, on the context above once its only attempt is
    made. *)
Lemma Do_EndFunc_then_budget_spent_witness :
  let c := set_times 1 (fresh 1 None None (Some 3%nat) None (Some 5%nat)) in
  let s := Do_start quiet_hooks (c, []) in
  let w' := snd s ++ [EvHook KEnd 5%nat; EvLog (LogBudget (MaxTimes c))] in
  keeps_counters quiet_hooks
  /\ 0 <= MaxTimes c < int_max
  /\ times c = MaxTimes c
  /\ EndFunc (fst s) = Some 5%nat
  /\ Do quiet_hooks (always (Received (resp 500 ok_body))) table 1 (Some c) []
     = Some (Some (count (quiet_hooks 5%nat (fst s))), w')
  /\ attempts w' = attempts [].
Proof.
  intros c s w'.
  assert (K : keeps_counters quiet_hooks) by exact quiet_hooks_keep_counters.
  assert (M : 0 <= MaxTimes c < int_max) by (unfold int_max; simpl; lia).
  assert (T : times c = MaxTimes c) by reflexivity.
  assert (E : EndFunc (fst (Do_start quiet_hooks (c, []))) = Some 5%nat) by reflexivity.
  refine (conj K (conj M (conj T (conj E _)))).
  exact (Do_EndFunc_then_budget_spent quiet_hooks
           (always (Received (resp 500 ok_body))) table 0 c [] 5%nat K M T E).
Defined.

(** C3 on a status of the failure class. *)
Lemma Do_file_status_calls_FailedFunc_witness :
  let c := fresh 2 None (Some 2%nat) None None None in
  let ClientDo := always (Received (resp 404 ok_body)) in
  let c1 := fst (answered quiet_hooks ClientDo (c, [])) in
  let w1 := snd (answered quiet_hooks ClientDo (c, [])) in
  times (fst (entry quiet_hooks (c, []))) <= MaxTimes (fst (entry quiet_hooks (c, [])))
  /\ answer quiet_hooks ClientDo (c, []) = Received (resp 404 ok_body)
  /\ table (StatusCode (resp 404 ok_body)) = Some "file"
  /\ Do quiet_hooks ClientDo table 1 (Some c) []
     = ret (close_body
              match FailedFunc c1 with
              | Some h => (quiet_hooks h c1, w1 ++ [EvHook KFailed h])
              | None => (c1, w1)
              end).
Proof.
  intros c ClientDo c1 w1.
  assert (B : times (fst (entry quiet_hooks (c, [])))
              <= MaxTimes (fst (entry quiet_hooks (c, [])))) by (vm_compute; discriminate).
  assert (A : answer quiet_hooks ClientDo (c, []) = Received (resp 404 ok_body))
    by reflexivity.
  assert (T : table (StatusCode (resp 404 ok_body)) = Some "file") by reflexivity.
  refine (conj B (conj A (conj T _))).
  exact (proj1 (Do_file_status_calls_FailedFunc quiet_hooks ClientDo table 0 c []
                  (resp 404 ok_body) B A T)).
Defined.

(** C4 as stated fails on the empty pool: [Get] panics, it returns no
    error value. *)
Lemma Get_on_empty_pool_panics :
  Get 7 CookiePool = (Panicked "invalid argument to Int63n", CookiePool).
Proof. reflexivity. Qed.

(** C4, as the code has it, after three calls of [Add]. *)
Lemma Get_returns_an_added_cookie_witness :
  [ck1; ck2; ck3] <> []
  /\ exists ck,
       fst (Get 7 (AddAll [ck1; ck2; ck3] CookiePool)) = Returned ck
       /\ In ck [ck1; ck2; ck3].
Proof.
  assert (NE : [ck1; ck2; ck3] <> []) by discriminate.
  split; [exact NE|].
  destruct (Get_returns_an_added_cookie [ck1; ck2; ck3] 7 NE)
    as [[ck [G [_ [I _]]]] _].
  exists ck. split; assumption.
Defined.

(** C5 as stated fails: with [RetryFunc] unset, a timeout ends the chain
    after one attempt, although two attempts of the budget are left. *)
Lemma timeout_without_RetryFunc_is_not_retried :
  let c := fresh 3 None None None None None in
  Contains timeout_err timeout_marker = true
  /\ RetryFunc c = None
  /\ exists c',
       Do quiet_hooks (always (TransportErr None timeout_err)) table 5 (Some c) []
       = Some (Some c', [EvNet 0%nat req0])
       /\ times c' = 1 /\ MaxTimes c' = 3
       /\ attempts [EvNet 0%nat req0] = 1%nat.
Proof.
  intros c. split; [reflexivity|]. split; [reflexivity|].
  eexists. split; [vm_compute; reflexivity|]. repeat split; reflexivity.
Qed.

(** C5, as the code has it, on a timeout with [RetryFunc] set. *)
Lemma Do_timeout_retries_through_RetryFunc_witness :
  let c := fresh 3 None None (Some 3%nat) None None in
  let ClientDo := always (TransportErr None timeout_err) in
  let c1 := fst (answered quiet_hooks ClientDo (c, [])) in
  let w1 := snd (answered quiet_hooks ClientDo (c, [])) in
  times (fst (entry quiet_hooks (c, []))) <= MaxTimes (fst (entry quiet_hooks (c, [])))
  /\ answer quiet_hooks ClientDo (c, []) = TransportErr None timeout_err
  /\ Contains timeout_err timeout_marker = true
  /\ Do quiet_hooks ClientDo table 4 (Some c) []
     = match RetryFunc c1 with
       | Some h => Do quiet_hooks ClientDo table 3 (Some (quiet_hooks h c1))
                     (w1 ++ [EvHook KRetry h])
       | None => Some (Some c1, w1)
       end.
Proof.
  intros c ClientDo c1 w1.
  assert (B : times (fst (entry quiet_hooks (c, [])))
              <= MaxTimes (fst (entry quiet_hooks (c, [])))) by (vm_compute; discriminate).
  assert (A : answer quiet_hooks ClientDo (c, []) = TransportErr None timeout_err)
    by reflexivity.
  assert (T : Contains timeout_err timeout_marker = true) by reflexivity.
  refine (conj B (conj A (conj T _))).
  exact (Do_timeout_retries_through_RetryFunc quiet_hooks ClientDo table 3 c []
           None timeout_err B A T).
Defined.

(** C6 on a refused connection. *)
Lemma Do_transport_error_is_final_witness :
  let c := fresh 3 None (Some 2%nat) (Some 3%nat) None None in
  let ClientDo := always (TransportErr None refused_err) in
  times (fst (entry quiet_hooks (c, []))) <= MaxTimes (fst (entry quiet_hooks (c, [])))
  /\ answer quiet_hooks ClientDo (c, []) = TransportErr None refused_err
  /\ Contains refused_err timeout_marker = false
  /\ forall c' w',
       Do quiet_hooks ClientDo table 4 (Some c) [] = Some (c', w') ->
       attempts w' = S (attempts []) /\ calls_of KRetry w' = calls_of KRetry [].
Proof.
  intros c ClientDo.
  assert (B : times (fst (entry quiet_hooks (c, [])))
              <= MaxTimes (fst (entry quiet_hooks (c, [])))) by (vm_compute; discriminate).
  assert (A : answer quiet_hooks ClientDo (c, []) = TransportErr None refused_err)
    by reflexivity.
  assert (T : Contains refused_err timeout_marker = false) by reflexivity.
  refine (conj B (conj A (conj T _))).
  exact (proj2 (Do_transport_error_is_final quiet_hooks ClientDo table 3 c []
                  None refused_err B A T)).
Defined.


(** C8 on the second entry of a context with a budget of two attempts,
    with a retry hook that moves the context to the next client: the
    context returned is the one the hook left. *)
Lemma Do_retry_on_last_attempt_witness :
  let c := set_times 1 (fresh 2 None None (Some 3%nat) None (Some 5%nat)) in
  let ClientDo := always (Received (resp 500 ok_body)) in
  keeps_counters proxy_hooks
  /\ 1 <= MaxTimes c < int_max
  /\ times c = MaxTimes c - 1
  /\ answer proxy_hooks ClientDo (c, []) = Received (resp 500 ok_body)
  /\ table (StatusCode (resp 500 ok_body)) = Some "retry"
  /\ RetryFunc (fst (answered proxy_hooks ClientDo (c, []))) = Some 3%nat
  /\ exists c',
       Do proxy_hooks ClientDo table 2 (Some c) []
       = Some (Some c',
               [EvNet 0%nat req0; EvLog (LogRetryStatus 2 500); EvHook KRetry 3%nat;
                EvHook KEnd 5%nat; EvLog (LogBudget 2); EvClose])
       /\ Client_ c' = 1%nat
       /\ times c' = 3.
Proof.
  intros c ClientDo.
  assert (K : keeps_counters proxy_hooks) by exact proxy_hooks_keep_counters.
  assert (M : 1 <= MaxTimes c < int_max) by (unfold int_max; simpl; lia).
  assert (T : times c = MaxTimes c - 1) by reflexivity.
  assert (A : answer proxy_hooks ClientDo (c, []) = Received (resp 500 ok_body))
    by reflexivity.
  assert (SC : table (StatusCode (resp 500 ok_body)) = Some "retry") by reflexivity.
  assert (RF : RetryFunc (fst (answered proxy_hooks ClientDo (c, []))) = Some 3%nat)
    by reflexivity.
  refine (conj K (conj M (conj T (conj A (conj SC (conj RF _)))))).
  destruct (Do_retry_on_last_attempt proxy_hooks ClientDo table 0 c []
              (resp 500 ok_body) 3%nat K M T A SC RF) as [E _].
  eexists. split; [exact E|]. split; reflexivity.
Defined.



(** * Whole chains of [Do], files, the pool over sequences of calls *)

(** ** Counting in a list of events of one sort *)

Lemma filter_none (p q : Event -> bool) (l : list Event) :
  (forall x, q x = true -> p x = false) ->
  Forall (fun x => q x = true) l ->
  filter p l = [].
Proof.
  intros PQ F. induction F as [|x l Q _ IH]; [reflexivity|].
  cbn [filter]. now rewrite (PQ x Q).
Qed.

Lemma closes_app (w1 w2 : World) : closes (w1 ++ w2) = (closes w1 + closes w2)%nat.
Proof. unfold closes. now rewrite filter_app, length_app. Qed.

Lemma file_events_app (w1 w2 : World) :
  file_events (w1 ++ w2) = file_events w1 ++ file_events w2.
Proof. apply filter_app. Qed.

Lemma terminal_calls_le_hook_calls (l : World) :
  (calls_of KSucceed l + calls_of KFailed l + calls_of KRetry l <= hook_calls l)%nat.
Proof.
  unfold calls_of, hook_calls.
  induction l as [|x l IH]; [reflexivity|].
  destruct x as [| k h | | | | |]; cbn [filter is_hook_of is_hook]; try exact IH.
  destruct k; cbn [List.length]; lia.
Qed.

Lemma block_events_count (l : World) :
  Forall (fun x => block_event x = true) l ->
  attempts l = 0%nat /\ closes l = 0%nat /\ file_events l = []
  /\ calls_of KRetry l = 0%nat /\ calls_of KSucceed l = 0%nat
  /\ calls_of KFailed l = 0%nat
  /\ Forall (fun x => run_event x = true) l.
Proof.
  intros F. unfold attempts, closes, file_events, calls_of.
  rewrite (filter_none is_net block_event), (filter_none is_close block_event),
    (filter_none is_file block_event), (filter_none (is_hook_of KRetry) block_event),
    (filter_none (is_hook_of KSucceed) block_event),
    (filter_none (is_hook_of KFailed) block_event); try assumption;
    try (intros [| [] ? | | | | |]; cbn; congruence).
  repeat split. eapply Forall_impl; [|exact F].
  intros [| [] ? | | | | |]; cbn; congruence.
Qed.

Lemma stop_events_count (l : World) :
  Forall (fun x => stop_event x = true) l ->
  attempts l = 0%nat /\ closes l = 0%nat /\ file_events l = []
  /\ calls_of KRetry l = 0%nat /\ calls_of KStart l = 0%nat
  /\ calls_of KEnd l = 0%nat
  /\ Forall (fun x => run_event x = true) l.
Proof.
  intros F. unfold attempts, closes, file_events, calls_of.
  rewrite (filter_none is_net stop_event), (filter_none is_close stop_event),
    (filter_none is_file stop_event), (filter_none (is_hook_of KRetry) stop_event),
    (filter_none (is_hook_of KStart) stop_event),
    (filter_none (is_hook_of KEnd) stop_event); try assumption;
    try (intros [| [] ? | | | | |]; cbn; congruence).
  repeat split. eapply Forall_impl; [|exact F].
  intros [| [] ? | | | | |]; cbn; congruence.
Qed.

Lemma retry_events_count (l : World) :
  Forall (fun x => retry_event x = true) l ->
  attempts l = 0%nat /\ closes l = 0%nat /\ file_events l = []
  /\ calls_of KSucceed l = 0%nat /\ calls_of KFailed l = 0%nat
  /\ calls_of KStart l = 0%nat /\ calls_of KEnd l = 0%nat
  /\ Forall (fun x => run_event x = true) l.
Proof.
  intros F. unfold attempts, closes, file_events, calls_of.
  rewrite (filter_none is_net retry_event), (filter_none is_close retry_event),
    (filter_none is_file retry_event), (filter_none (is_hook_of KSucceed) retry_event),
    (filter_none (is_hook_of KFailed) retry_event),
    (filter_none (is_hook_of KStart) retry_event),
    (filter_none (is_hook_of KEnd) retry_event); try assumption;
    try (intros [| [] ? | | | | |]; cbn; congruence).
  repeat split. eapply Forall_impl; [|exact F].
  intros [| [] ? | | | | |]; cbn; congruence.
Qed.

Lemma run_events_count (l : World) :
  Forall (fun x => run_event x = true) l ->
  closes l = 0%nat /\ file_events l = [].
Proof.
  intros F. unfold closes, file_events.
  rewrite (filter_none is_close run_event), (filter_none is_file run_event);
    try assumption; try (intros [| [] ? | | | | |]; cbn; congruence).
  split; reflexivity.
Qed.

Lemma close_events_count (l : World) :
  Forall (fun x => x = EvClose) l ->
  attempts l = 0%nat /\ hook_calls l = 0%nat /\ file_events l = []
  /\ closes l = List.length l.
Proof.
  intros F. induction F as [|x l -> _ [A [H [FE C]]]]; [repeat split|].
  unfold attempts, hook_calls, file_events, closes in *.
  cbn [filter is_net is_hook is_file is_close List.length].
  repeat split; try assumption. now rewrite C.
Qed.

Lemma result_inv (c1 : Context) (w1 : World) (c' : option Context) (w' : World) :
  Some (Some c1, w1) = Some (c', w') -> w' = w1 /\ c' = Some c1.
Proof. intros H. injection H as <- <-. auto. Qed.

Lemma close_body_Resp_None (s : St) :
  Resp (fst (close_body s)) = None -> close_body s = s.
Proof.
  unfold close_body. destruct (Resp (fst s)) eqn:R; [|reflexivity].
  cbn [fst]. discriminate.
Qed.

Section Chains.

Variable hooks : HookTable.
Variable ClientDo : ClientDoT.
Variable StatusCodeMap : StatusCodeMapT.
Variable Create : CreateT.

Local Abbreviation Do := (Do hooks ClientDo StatusCodeMap).
Local Abbreviation Upload := (Upload hooks ClientDo StatusCodeMap Create).
Local Abbreviation entry := (entry hooks).
Local Abbreviation answer := (answer hooks ClientDo).
Local Abbreviation answered := (answered hooks ClientDo).
Local Abbreviation keeps := (keeps_counters hooks).
Local Abbreviation Upload_answer := (Upload_answer ClientDo).
Local Abbreviation Upload_answered := (Upload_answered ClientDo).

(** The start and end blocks add calls of their hooks only. *)
Lemma entry_shape (c : Context) (w : World) :
  exists pre,
    snd (entry (c, w)) = w ++ pre /\ Forall (fun x => block_event x = true) pre.
Proof.
  unfold gathertool.entry, Do_end, Do_start, call. cbn [fst snd].
  destruct (times c =? 0); [destruct (StartFunc c) as [h|]|]; cbn [fst snd].
  - match goal with |- context [if ?b then _ else _] => destruct b end;
      [match goal with |- context [EndFunc ?x] => destruct (EndFunc x) as [h'|] end|];
      cbn [fst snd]; unfold emit.
    + exists [EvHook KStart h; EvHook KEnd h']. rewrite <- app_assoc.
      split; [reflexivity | repeat constructor].
    + exists [EvHook KStart h]. split; [reflexivity | repeat constructor].
    + exists [EvHook KStart h]. split; [reflexivity | repeat constructor].
  - destruct (times c =? MaxTimes c); [destruct (EndFunc c) as [h'|]|];
      cbn [fst snd]; unfold emit.
    + exists [EvHook KEnd h']. split; [reflexivity | repeat constructor].
    + exists []. rewrite app_nil_r. split; [reflexivity | constructor].
    + exists []. rewrite app_nil_r. split; [reflexivity | constructor].
  - destruct (times c =? MaxTimes c); [destruct (EndFunc c) as [h'|]|];
      cbn [fst snd]; unfold emit.
    + exists [EvHook KEnd h']. split; [reflexivity | repeat constructor].
    + exists []. rewrite app_nil_r. split; [reflexivity | constructor].
    + exists []. rewrite app_nil_r. split; [reflexivity | constructor].
Qed.

Ltac enter_Do c w :=
  cbn [gathertool.Do];
  change (count (fst (Do_end hooks (Do_start hooks (c, w)))))
    with (fst (entry (c, w)));
  change (snd (Do_end hooks (Do_start hooks (c, w))))
    with (snd (entry (c, w)));
  destruct (Z.gtb_spec (times (fst (entry (c, w)))) (MaxTimes (fst (entry (c, w)))));
  [ | change (attempt ClientDo true (fst (entry (c, w)), snd (entry (c, w))))
        with (answer (c, w), (fst (answered (c, w)), snd (answered (c, w))));
      cbv iota beta ].

(** The events an entry adds after its attempt, as a list. *)
Ltac as_extension :=
  unfold call, Println, emit; cbn [fst snd];
  first [ rewrite <- !app_assoc; cbn [app]; reflexivity
        | symmetry; apply app_nil_r ].

Ltac stop_leaf evs :=
  left; eexists; exists evs;
  split; [repeat constructor|];
  split; [unfold hook_calls; cbn; lia|].

Ltac retry_leaf mid :=
  right; eexists; exists mid;
  split; [repeat constructor|];
  split; [unfold hook_calls; cbn; lia|].

(** One entry of [Do], whatever the hooks do: it finds the budget spent; or
    it makes its attempt and returns, with or without the deferred close;
    or it makes its attempt and recurses, with or without the deferred
    close. *)
Lemma Do_shape (fuel : nat) (c : Context) (w : World) :
  (times (fst (entry (c, w))) > MaxTimes (fst (entry (c, w))) /\
   Do (S fuel) (Some c) w =
     ret (fst (entry (c, w)),
          snd (entry (c, w)) ++ [EvLog (LogBudget (MaxTimes (fst (entry (c, w)))))]))
  \/
  (times (fst (entry (c, w))) <= MaxTimes (fst (entry (c, w))) /\
   ((exists c1 evs,
        Forall (fun x => stop_event x = true) evs /\
        (hook_calls evs <= 1)%nat /\
        (Do (S fuel) (Some c) w = Some (Some c1, snd (answered (c, w)) ++ evs) \/
         Do (S fuel) (Some c) w = ret (close_body (c1, snd (answered (c, w)) ++ evs))))
    \/
    (exists c2 mid,
        Forall (fun x => retry_event x = true) mid /\
        (hook_calls mid <= 1)%nat /\
        (keeps -> times c2 = times (fst (entry (c, w))) /\
                  MaxTimes c2 = MaxTimes (fst (entry (c, w)))) /\
        (Do (S fuel) (Some c) w = Do fuel (Some c2) (snd (answered (c, w)) ++ mid) \/
         Do (S fuel) (Some c) w =
           deferred (Do fuel (Some c2) (snd (answered (c, w)) ++ mid)))))).
Proof.
  destruct (answered_counters hooks ClientDo (c, w)) as [CT CM].
  enter_Do c w.
  { left. split; [lia | reflexivity]. }
  right. split; [assumption|].
  set (c1 := fst (answered (c, w))) in *.
  set (w1 := snd (answered (c, w))) in *.
  destruct (answer (c, w)) as [r e | resp].
  - destruct (Contains e timeout_marker).
    + destruct (RetryFunc c1) as [h|].
      * retry_leaf [EvHook KRetry h].
        split; [intros K; destruct (K h c1) as [KT KM]; split;
                  [rewrite KT; exact CT | rewrite KM; exact CM]|].
        left. reflexivity.
      * stop_leaf (@nil Event). left. now rewrite app_nil_r.
    + destruct (FailedFunc c1) as [h|].
      * stop_leaf [EvLog (LogErr e); EvHook KFailed h]. left.
        unfold call, Println, emit, ret. cbn [fst snd]. now rewrite <- app_assoc.
      * stop_leaf [EvLog (LogErr e)]. left. reflexivity.
  - destruct (StatusCodeMap (StatusCode resp)) as [v|].
    + destruct (String.eqb v "success").
      { destruct (ReadAll (Body resp)) as [[body err] rest].
        destruct err as [e|].
        - stop_leaf [EvLog (LogReadErr e)]. right. apply deferred_ret.
        - match goal with |- context [SucceedFunc ?x] => destruct (SucceedFunc x) as [h|] end.
          + stop_leaf [EvHook KSucceed h]. right. apply deferred_ret.
          + stop_leaf (@nil Event). right. rewrite app_nil_r. apply deferred_ret. }
      destruct (String.eqb v "retry").
      { destruct (RetryFunc c1) as [h|].
        - retry_leaf [EvLog (LogRetryStatus (times c1) (StatusCode resp)); EvHook KRetry h].
          split; [intros K; destruct (K h c1) as [KT KM]; split;
                  [rewrite KT; exact CT | rewrite KM; exact CM]|].
          right. unfold call, Println, emit. cbn [fst snd]. now rewrite <- app_assoc.
        - retry_leaf [EvLog (LogRetryStatus (times c1) (StatusCode resp))].
          split; [intros _; split; [exact CT | exact CM]|].
          right. reflexivity. }
      destruct (String.eqb v "file").
      { destruct (FailedFunc c1) as [h|].
        - stop_leaf [EvHook KFailed h]. right. apply deferred_ret.
        - stop_leaf (@nil Event). right. rewrite app_nil_r. apply deferred_ret. }
      destruct (String.eqb v "start").
      { stop_leaf [EvLog LogStartEvent]. right. apply deferred_ret. }
      destruct (String.eqb v "end").
      { stop_leaf [EvLog LogEndEvent]. right. apply deferred_ret. }
      stop_leaf (@nil Event). right. rewrite app_nil_r. apply deferred_ret.
    + stop_leaf (@nil Event). right. rewrite app_nil_r. apply deferred_ret.
Qed.

Lemma close_body_cases (s : St) :
  (Resp (fst s) = None /\ close_body s = s)
  \/ (exists r, Resp (fst (close_body s)) = Some r
                /\ snd (close_body s) = snd s ++ [EvClose]).
Proof.
  unfold close_body. destruct (Resp (fst s)) as [r|] eqn:R.
  - right. eexists. split; reflexivity.
  - left. split; reflexivity.
Qed.

(** A whole chain, whatever the hooks do: the trace grows by a run of log
    lines, hook calls and network attempts, followed by the deferred closes;
    no close runs when the context ends with a nil response; the retry,
    success and failure hooks are called at most once per attempt, and the
    success and failure hooks at most once in all. *)
Lemma Do_run :
  forall (fuel : nat) (c : Context) (w : World) (c' : option Context) (w' : World),
    Do fuel (Some c) w = Some (c', w') ->
    exists c0 run tail,
      c' = Some c0 /\ w' = w ++ run ++ tail
      /\ Forall (fun x => run_event x = true) run
      /\ Forall (fun x => x = EvClose) tail
      /\ (Resp c0 = None -> tail = [])
      /\ (calls_of KRetry run + calls_of KSucceed run + calls_of KFailed run
          <= attempts run)%nat
      /\ (calls_of KSucceed run + calls_of KFailed run <= 1)%nat.
Proof.
  induction fuel as [|fuel IH]; intros c w c' w' E; [discriminate E|].
  destruct (entry_shape c w) as [pre [PW PF]].
  destruct (block_events_count pre PF) as [PA [_ [_ [PR [PS [PX PRun]]]]]].
  pose proof (answered_world hooks ClientDo (c, w)) as AW.
  set (net := EvNet (Client_ (fst (entry (c, w)))) (Req (fst (entry (c, w))))) in *.
  assert (NA : attempts [net] = 1%nat) by reflexivity.
  assert (NK : forall k, calls_of k [net] = 0%nat) by (intros []; reflexivity).
  assert (LK : forall k l, calls_of k [EvLog l] = 0%nat) by (intros [] l; reflexivity).
  destruct (Do_shape fuel c w)
    as [[_ B] | [_ [[c1 [evs [EF [EH ES]]]] | [c2 [mid [MF [MH [_ ER]]]]]]]].
  - rewrite B in E. apply ret_inv in E as [-> ->]. cbn [fst snd].
    exists (fst (entry (c, w))),
      (pre ++ [EvLog (LogBudget (MaxTimes (fst (entry (c, w)))))]), [].
    rewrite PW, app_nil_r, <- app_assoc.
    repeat split; try constructor.
    + apply Forall_app. split; [exact PRun | repeat constructor].
    + rewrite !calls_of_app, !LK, PR, PS, PX. lia.
    + rewrite !calls_of_app, !LK, PS, PX. lia.
  - destruct (stop_events_count evs EF) as [EA [_ [_ [ERt [_ [_ ERun]]]]]].
    pose proof (terminal_calls_le_hook_calls evs) as TH.
    assert (RunF : Forall (fun x => run_event x = true) (pre ++ [net] ++ evs)).
    { apply Forall_app. split; [exact PRun|].
      apply Forall_app. split; [repeat constructor | exact ERun]. }
    assert (C3 : (calls_of KRetry (pre ++ [net] ++ evs)
                  + calls_of KSucceed (pre ++ [net] ++ evs)
                  + calls_of KFailed (pre ++ [net] ++ evs)
                  <= attempts (pre ++ [net] ++ evs))%nat).
    { rewrite !calls_of_app, !attempts_app, !NK, NA, PR, PS, PX, PA, EA, ERt. lia. }
    assert (C2 : (calls_of KSucceed (pre ++ [net] ++ evs)
                  + calls_of KFailed (pre ++ [net] ++ evs) <= 1)%nat).
    { rewrite !calls_of_app, !NK, PS, PX. lia. }
    assert (WE : snd (answered (c, w)) ++ evs = w ++ (pre ++ [net] ++ evs)).
    { rewrite AW, PW, <- !app_assoc. reflexivity. }
    rewrite WE in ES.
    destruct ES as [ES | ES]; rewrite ES in E.
    + injection E as <- <-.
      exists c1, (pre ++ [net] ++ evs), [].
      rewrite app_nil_r. repeat split; try assumption; constructor.
    + apply ret_inv in E as [-> ->].
      destruct (close_body_cases (c1, w ++ pre ++ [net] ++ evs))
        as [[RN CB] | [r [RS CW]]].
      * rewrite CB. cbn [fst snd].
        exists c1, (pre ++ [net] ++ evs), [].
        rewrite app_nil_r. repeat split; try assumption; constructor.
      * exists (fst (close_body (c1, w ++ pre ++ [net] ++ evs))),
          (pre ++ [net] ++ evs), [EvClose].
        rewrite CW. cbn [snd]. rewrite <- app_assoc.
        repeat split; try assumption; try (repeat constructor).
        intros RN. discriminate (eq_trans (eq_sym RS) RN).
  - destruct (retry_events_count mid MF) as [MA [_ [_ [MS [MX [_ [_ MRun]]]]]]].
    pose proof (terminal_calls_le_hook_calls mid) as TH.
    assert (IHc : forall ci wi,
               Do fuel (Some c2) (snd (answered (c, w)) ++ mid) = Some (ci, wi) ->
               exists c0 run tail,
                 ci = Some c0 /\ wi = w ++ run ++ tail
                 /\ Forall (fun x => run_event x = true) run
                 /\ Forall (fun x => x = EvClose) tail
                 /\ (Resp c0 = None -> tail = [])
                 /\ (calls_of KRetry run + calls_of KSucceed run + calls_of KFailed run
                     <= attempts run)%nat
                 /\ (calls_of KSucceed run + calls_of KFailed run <= 1)%nat).
    { intros ci wi Ei.
      destruct (IH _ _ _ _ Ei) as [c0 [run [tail [-> [-> [RF [TF [RN [C3 C2]]]]]]]]].
      exists c0, (pre ++ [net] ++ mid ++ run), tail.
      split; [reflexivity|].
      split; [rewrite AW, PW, <- !app_assoc; reflexivity|].
      split; [|split; [exact TF|split; [exact RN|split]]].
      - apply Forall_app. split; [exact PRun|].
        apply Forall_app. split; [repeat constructor|].
        apply Forall_app. split; [exact MRun | exact RF].
      - rewrite !calls_of_app, !attempts_app, !NK, NA, PR, PS, PX, PA, MA, MS, MX. lia.
      - rewrite !calls_of_app, !NK, PS, PX, MS, MX. lia. }
    destruct ER as [ER | ER]; rewrite ER in E.
    + exact (IHc _ _ E).
    + destruct (Do fuel (Some c2) (snd (answered (c, w)) ++ mid)) as [[ci wi]|] eqn:Ei;
        [|discriminate E].
      destruct (IHc ci wi eq_refl) as [c0 [run [tail [-> [-> [RF [TF [RN [C3 C2]]]]]]]]].
      change (ret (close_body (c0, w ++ run ++ tail)) = Some (c', w')) in E.
      apply ret_inv in E as [-> ->].
      destruct (close_body_cases (c0, w ++ run ++ tail)) as [[RN0 CB] | [r [RS CW]]].
      * rewrite CB. cbn [fst snd] in *.
        exists c0, run, tail. repeat split; assumption.
      * exists (fst (close_body (c0, w ++ run ++ tail))), run, (tail ++ [EvClose]).
        rewrite CW. cbn [snd]. rewrite <- !app_assoc.
        repeat split; try assumption.
        -- apply Forall_app. split; [exact TF | repeat constructor].
        -- intros RN'. discriminate (eq_trans (eq_sym RS) RN').
Qed.

(** X1.  [Do] never creates, writes or closes a file: over a whole chain the
    calls on files in the trace stay as they were. *)
Theorem Do_never_touches_files
  (fuel : nat) (c : Context) (w : World) (c' : option Context) (w' : World) :
  Do fuel (Some c) w = Some (c', w') ->
  file_events w' = file_events w.
Proof.
  intros E.
  destruct (Do_run fuel c w c' w' E) as [c0 [run [tail [_ [-> [RF [TF _]]]]]]].
  destruct (run_events_count run RF) as [_ FR].
  destruct (close_events_count tail TF) as [_ [_ [FT _]]].
  now rewrite !file_events_app, FR, FT, app_nil_r.
Qed.

(** X2.  Over a whole chain, whatever the hooks do, [SucceedFunc] and
    [FailedFunc] are called at most once between them: a chain has one
    final outcome at most. *)
Theorem Do_calls_one_final_hook_at_most
  (fuel : nat) (c : Context) (w : World) (c' : option Context) (w' : World) :
  Do fuel (Some c) w = Some (c', w') ->
  (calls_of KSucceed w' + calls_of KFailed w'
   <= calls_of KSucceed w + calls_of KFailed w + 1)%nat.
Proof.
  intros E.
  destruct (Do_run fuel c w c' w' E) as [c0 [run [tail [_ [-> [_ [TF [_ [_ C2]]]]]]]]].
  destruct (close_events_count tail TF) as [_ [HT _]].
  pose proof (terminal_calls_le_hook_calls tail) as TH.
  rewrite !calls_of_app. lia.
Qed.

(** X3.  Over a whole chain, whatever the hooks do, the calls of
    [RetryFunc], [SucceedFunc] and [FailedFunc] number at most the network
    attempts made: each attempt is answered by one of these hooks at most. *)
Theorem Do_outcome_hooks_follow_attempts
  (fuel : nat) (c : Context) (w : World) (c' : option Context) (w' : World) :
  Do fuel (Some c) w = Some (c', w') ->
  (calls_of KRetry w' + calls_of KSucceed w' + calls_of KFailed w' + attempts w
   <= calls_of KRetry w + calls_of KSucceed w + calls_of KFailed w + attempts w')%nat.
Proof.
  intros E.
  destruct (Do_run fuel c w c' w' E) as [c0 [run [tail [_ [-> [_ [TF [_ [C3 _]]]]]]]]].
  destruct (close_events_count tail TF) as [_ [HT _]].
  pose proof (terminal_calls_le_hook_calls tail) as TH.
  rewrite !calls_of_app, !attempts_app. lia.
Qed.

(** X4.  The response bodies are closed only when the whole chain returns:
    the trace grows by a run without any [Close], in which all the network
    attempts are made, followed by [Close] calls only.  When the chain ends
    with [c.Resp == nil], no [Close] is called at all, whatever responses
    were received on the way. *)
Theorem Do_closes_bodies_when_the_chain_returns
  (fuel : nat) (c : Context) (w : World) (c' : option Context) (w' : World) :
  Do fuel (Some c) w = Some (c', w') ->
  exists c0 run tail,
    c' = Some c0 /\ w' = w ++ run ++ tail
    /\ closes run = 0%nat
    /\ attempts run = (attempts w' - attempts w)%nat
    /\ Forall (fun x => x = EvClose) tail
    /\ (Resp c0 = None -> closes w' = closes w).
Proof.
  intros E.
  destruct (Do_run fuel c w c' w' E) as [c0 [run [tail [-> [-> [RF [TF [RN _]]]]]]]].
  destruct (run_events_count run RF) as [CR _].
  destruct (close_events_count tail TF) as [AT _].
  exists c0, run, tail. repeat split; try assumption.
  - rewrite !attempts_app, AT. lia.
  - intros N. rewrite (RN N), app_nil_r, closes_app, CR. lia.
Qed.

(** ** The start and end hooks over a chain *)

Lemma Do_after_entry
  (fuel : nat) (c : Context) (w : World) (c' : option Context) (w' : World) :
  Do fuel (Some c) w = Some (c', w') ->
  exists rest, w' = snd (entry (c, w)) ++ rest.
Proof.
  destruct fuel as [|fuel]; intros E; [discriminate E|].
  pose proof (answered_world hooks ClientDo (c, w)) as AW.
  destruct (Do_shape fuel c w)
    as [[_ B] | [_ [[c1 [evs [_ [_ ES]]]] | [c2 [mid [_ [_ [_ ER]]]]]]]].
  - rewrite B in E. apply ret_inv in E as [-> _]. cbn [snd]. eexists. reflexivity.
  - destruct ES as [ES | ES]; rewrite ES in E.
    + apply result_inv in E as [-> _]. rewrite AW, <- app_assoc. eexists. reflexivity.
    + apply ret_inv in E as [-> _].
      destruct (close_body_world (c1, snd (answered (c, w)) ++ evs)) as [CW | CW];
        rewrite CW; cbn [snd]; rewrite AW, <- !app_assoc; eexists; reflexivity.
  - destruct ER as [ER | ER]; rewrite ER in E.
    + destruct (Do_run _ _ _ _ _ E) as [c0 [run [tail [_ [-> _]]]]].
      rewrite AW, <- !app_assoc. eexists. reflexivity.
    + destruct (Do fuel (Some c2) (snd (answered (c, w)) ++ mid)) as [[ci wi]|] eqn:Ei;
        [|discriminate E].
      destruct (Do_run _ _ _ _ _ Ei) as [c0 [run [tail [-> [-> _]]]]].
      change (ret (close_body (c0, (snd (answered (c, w)) ++ mid) ++ run ++ tail))
              = Some (c', w')) in E.
      apply ret_inv in E as [-> _].
      destruct (close_body_world (c0, (snd (answered (c, w)) ++ mid) ++ run ++ tail))
        as [CW | CW]; rewrite CW; cbn [snd]; rewrite AW, <- !app_assoc;
        eexists; reflexivity.
Qed.

(** The calls of the start hook one entry makes. *)
Lemma entry_start_calls (c : Context) (w : World) :
  calls_of KStart (snd (entry (c, w))) =
  (calls_of KStart w
   + if (times c =? 0)%Z then match StartFunc c with Some _ => 1 | None => 0 end else 0)%nat.
Proof.
  unfold gathertool.entry. cbn [snd].
  rewrite Do_end_calls by discriminate.
  unfold Do_start, call. cbn [fst snd].
  destruct (times c =? 0); [|cbn [snd]; lia].
  destruct (StartFunc c); cbn [snd]; [|lia].
  rewrite calls_of_emit. reflexivity.
Qed.

(** The calls of the end hook one entry makes. *)
Lemma entry_end_calls (K : keeps) (c : Context) (w : World) :
  (calls_of KEnd (snd (entry (c, w))) <= calls_of KEnd w + 1)%nat
  /\ (times c <> MaxTimes c ->
      calls_of KEnd (snd (entry (c, w))) = calls_of KEnd w).
Proof.
  destruct (Do_start_counters hooks (c, w) K) as [ST SM]. cbn [fst] in ST, SM.
  pose proof (Do_start_calls hooks KEnd (c, w)) as SC. cbn [snd] in SC.
  unfold gathertool.entry. cbn [snd]. unfold Do_end, call.
  destruct (Z.eqb_spec (times (fst (Do_start hooks (c, w))))
              (MaxTimes (fst (Do_start hooks (c, w))))) as [EQ | NE].
  - destruct (EndFunc (fst (Do_start hooks (c, w)))); cbn [snd];
      rewrite ?calls_of_emit, SC by discriminate; cbn [is_hook_of];
      (split; [lia | intros X; exfalso; apply X; congruence]).
  - rewrite SC by discriminate. split; [lia | reflexivity].
Qed.

Lemma deferred_inv_calls (res : option (option Context * World))
      (c' : option Context) (w' : World) :
  deferred res = Some (c', w') ->
  exists c0 w0, res = Some (c0, w0) /\ forall k, calls_of k w' = calls_of k w0.
Proof.
  destruct res as [[[c0|] w0]|]; intros H.
  - exists (Some c0), w0. split; [reflexivity|]. intros k.
    change (deferred (Some (Some c0, w0))) with (ret (close_body (c0, w0))) in H.
    apply ret_inv in H as [-> _]. apply close_body_calls.
  - exists None, w0. split; [reflexivity|]. cbn in H. now injection H as _ <-.
  - discriminate H.
Qed.

(** With hooks that keep the counters, and a counter that starts at zero or
    above: the start hook is called on an entry that finds the counter at
    zero, and on no later entry; the end hook, the success hook and the
    failure hook are called at most once between them. *)
Lemma Do_blocks (K : keeps) :
  forall (fuel : nat) (c : Context) (w : World) (c' : option Context) (w' : World),
    0 <= times c < int_max ->
    MaxTimes c < int_max ->
    Do fuel (Some c) w = Some (c', w') ->
    calls_of KStart w' =
      (calls_of KStart w
       + if (times c =? 0)%Z
         then match StartFunc c with Some _ => 1 | None => 0 end
         else 0)%nat
    /\ (calls_of KEnd w' + calls_of KSucceed w' + calls_of KFailed w'
        <= calls_of KEnd w + calls_of KSucceed w + calls_of KFailed w + 1)%nat.
Proof.
  induction fuel as [|fuel IH]; intros c w c' w' R M E; [discriminate E|].
  assert (Rc : int_min <= times (fst (c, w)) + 1 <= int_max)
    by (cbn [fst]; unfold int_min, int_max in *; lia).
  destruct (entry_counters hooks (c, w) K Rc) as [ET EM]. cbn [fst] in ET, EM.
  pose proof (entry_start_calls c w) as ES.
  destruct (entry_end_calls K c w) as [EE1 EE2].
  pose proof (entry_calls hooks KSucceed (c, w)) as ESu. cbn [snd] in ESu.
  pose proof (entry_calls hooks KFailed (c, w)) as EFa. cbn [snd] in EFa.
  specialize (ESu ltac:(discriminate) ltac:(discriminate)).
  specialize (EFa ltac:(discriminate) ltac:(discriminate)).
  pose proof (answered_world hooks ClientDo (c, w)) as AW.
  remember (snd (entry (c, w))) as we eqn:WE.
  remember (EvNet (Client_ (fst (entry (c, w)))) (Req (fst (entry (c, w))))) as net eqn:NET.
  assert (NK : forall k, calls_of k [net] = 0%nat) by (subst net; intros []; reflexivity).
  assert (LK : forall k l, calls_of k [EvLog l] = 0%nat) by (intros [] l; reflexivity).
  destruct (Do_shape fuel c w)
    as [[_ B] | [B [[c1 [evs [EF [EH S1]]]] | [c2 [mid [MF [MH [MC ER]]]]]]]].
  - rewrite B in E. apply ret_inv in E as [-> _]. cbn [snd]. rewrite <- WE.
    rewrite !calls_of_app, !LK. lia.
  - assert (NE : times c <> MaxTimes c) by lia.
    specialize (EE2 NE).
    destruct (stop_events_count evs EF) as [_ [_ [_ [_ [SS [SE _]]]]]].
    pose proof (terminal_calls_le_hook_calls evs) as TH.
    assert (W1 : forall k, calls_of k (snd (answered (c, w)) ++ evs)
                           = (calls_of k we + calls_of k evs)%nat).
    { intros k. rewrite AW, !calls_of_app, NK. lia. }
    destruct S1 as [S1 | S1]; rewrite S1 in E.
    + apply result_inv in E as [-> _].
      rewrite (W1 KStart), (W1 KEnd), (W1 KSucceed), (W1 KFailed). lia.
    + apply ret_inv in E as [-> _]. rewrite !close_body_calls. cbn [snd].
      rewrite (W1 KStart), (W1 KEnd), (W1 KSucceed), (W1 KFailed). lia.
  - assert (NE : times c <> MaxTimes c) by lia.
    specialize (EE2 NE).
    destruct (MC K) as [T2 M2].
    destruct (retry_events_count mid MF) as [_ [_ [_ [MS [MX [MSt [MEn _]]]]]]].
    assert (W2 : forall k, calls_of k (snd (answered (c, w)) ++ mid)
                           = (calls_of k we + calls_of k mid)%nat).
    { intros k. rewrite AW, !calls_of_app, NK. lia. }
    assert (R2 : 0 <= times c2 < int_max) by lia.
    assert (M2' : MaxTimes c2 < int_max) by lia.
    assert (Z2 : (times c2 =? 0)%Z = false) by (apply Z.eqb_neq; lia).
    assert (IHc : forall ci wi,
               Do fuel (Some c2) (snd (answered (c, w)) ++ mid) = Some (ci, wi) ->
               calls_of KStart wi =
                 (calls_of KStart w
                  + if (times c =? 0)%Z
                    then match StartFunc c with Some _ => 1 | None => 0 end
                    else 0)%nat
               /\ (calls_of KEnd wi + calls_of KSucceed wi + calls_of KFailed wi
                   <= calls_of KEnd w + calls_of KSucceed w + calls_of KFailed w + 1)%nat).
    { intros ci wi Ei. destruct (IH _ _ _ _ R2 M2' Ei) as [I1 I2].
      rewrite Z2 in I1. rewrite (W2 KStart) in I1.
      rewrite (W2 KEnd), (W2 KSucceed), (W2 KFailed) in I2. lia. }
    destruct ER as [ER | ER]; rewrite ER in E.
    + exact (IHc _ _ E).
    + apply deferred_inv_calls in E as [c0 [w0 [E0 CK]]].
      rewrite (CK KStart), (CK KEnd), (CK KSucceed), (CK KFailed). exact (IHc _ _ E0).
Qed.

(** X5.  With hooks that keep the counters, on a context that has made no
    attempt yet ([times = 0]) and has [StartFunc] set, [Do] returns, the
    call of [StartFunc] is the first thing it has done, before any network
    attempt, and it is the only call of [StartFunc] in the whole chain,
    however many attempts follow. *)
Theorem Do_calls_StartFunc_first_and_once
  (fuel : nat) (c : Context) (w : World) (h : HookId) :
  keeps ->
  times c = 0 ->
  StartFunc c = Some h ->
  MaxTimes c < int_max ->
  (Z.to_nat (MaxTimes c) < fuel)%nat ->
  exists c' rest,
    Do fuel (Some c) w = Some (Some c', w ++ EvHook KStart h :: rest)
    /\ calls_of KStart rest = 0%nat
    /\ (attempts rest <= Z.to_nat (MaxTimes c))%nat.
Proof.
  intros K T SF M F.
  assert (R : int_min <= times c + 1 <= int_max)
    by (unfold int_min, int_max; lia).
  assert (F' : (Z.to_nat (MaxTimes c - times c) < fuel)%nat) by lia.
  destruct (Do_chain hooks ClientDo StatusCodeMap K fuel c w R M F')
    as [c' [w' [E N]]].
  destruct (Do_after_entry fuel c w (Some c') w' E) as [rest0 W].
  assert (EN : exists more, snd (entry (c, w)) = (w ++ [EvHook KStart h]) ++ more).
  { unfold gathertool.entry. cbn [snd].
    assert (DS : Do_start hooks (c, w) = (hooks h c, w ++ [EvHook KStart h])).
    { unfold Do_start. cbn [fst]. rewrite T, SF. reflexivity. }
    rewrite DS. unfold Do_end, call, emit. cbn [fst snd].
    destruct (times (hooks h c) =? MaxTimes (hooks h c));
      [destruct (EndFunc (hooks h c))|]; cbn [snd];
      first [ eexists; reflexivity | exists []; now rewrite app_nil_r ]. }
  destruct EN as [more EN].
  assert (W' : w' = w ++ EvHook KStart h :: more ++ rest0).
  { rewrite W, EN, <- !app_assoc. reflexivity. }
  exists c', (more ++ rest0). rewrite <- W'. split; [exact E|].
  assert (R0 : 0 <= times c < int_max) by (unfold int_max; lia).
  destruct (Do_blocks K fuel c w (Some c') w' R0 M E) as [S1 _].
  rewrite T, SF in S1. cbn [Z.eqb] in S1.
  assert (CS : calls_of KStart w' = (calls_of KStart w + 1 + calls_of KStart (more ++ rest0))%nat).
  { rewrite W'.
    change (w ++ EvHook KStart h :: more ++ rest0)
      with (w ++ [EvHook KStart h] ++ (more ++ rest0)).
    rewrite !calls_of_app.
    change (calls_of KStart [EvHook KStart h]) with 1%nat. lia. }
  assert (AS : attempts w' = (attempts w + attempts (more ++ rest0))%nat).
  { rewrite W'.
    change (w ++ EvHook KStart h :: more ++ rest0)
      with (w ++ [EvHook KStart h] ++ (more ++ rest0)).
    rewrite !attempts_app.
    change (attempts [EvHook KStart h]) with 0%nat. lia. }
  rewrite T in N. replace (MaxTimes c - 0) with (MaxTimes c) in N by lia.
  split; lia.
Qed.

(** X6.  With hooks that keep the counters, over a whole chain [EndFunc],
    [SucceedFunc] and [FailedFunc] are called at most once between them:
    [EndFunc] runs only on the entry that finds the budget spent, so a
    chain that ends in success or in failure never calls it. *)
Theorem Do_EndFunc_excludes_final_hooks
  (fuel : nat) (c : Context) (w : World) (c' : option Context) (w' : World) :
  keeps ->
  0 <= times c < int_max ->
  MaxTimes c < int_max ->
  Do fuel (Some c) w = Some (c', w') ->
  (calls_of KEnd w' + calls_of KSucceed w' + calls_of KFailed w'
   <= calls_of KEnd w + calls_of KSucceed w + calls_of KFailed w + 1)%nat.
Proof.
  intros K R M E. exact (proj2 (Do_blocks K fuel c w c' w' R M E)).
Qed.

(** ** Chains in which every answer asks for a retry *)

Lemma entry_RetryFunc (KR : keeps_RetryFunc hooks) (c : Context) (w : World) :
  RetryFunc (fst (answered (c, w))) = RetryFunc c.
Proof.
  unfold gathertool.answered, attempt, gathertool.entry, Do_end, Do_start, call.
  cbn [fst snd].
  destruct (result _); cbn [fst];
    (destruct (times c =? 0); [destruct (StartFunc c)|]; cbn [fst snd];
     match goal with |- context [if ?b then _ else _] => destruct b end;
     try match goal with |- context [match EndFunc ?x with _ => _ end] =>
           destruct (EndFunc x) end;
     cbn [fst snd RetryFunc count set_times set_Resp set_Err set_Ms];
     rewrite ?KR; reflexivity).
Qed.

Lemma retry_step (K : keeps) (KR : keeps_RetryFunc hooks) (hooked : bool)
      (fuel : nat) (c : Context) (w : World) :
  always_retryable ClientDo StatusCodeMap hooked ->
  (hooked = true -> RetryFunc c <> None) ->
  int_min <= times c + 1 <= int_max ->
  times c < MaxTimes c ->
  exists c2 w2,
    times c2 = times c + 1 /\ MaxTimes c2 = MaxTimes c
    /\ RetryFunc c2 = RetryFunc c
    /\ attempts w2 = S (attempts w)
    /\ calls_of KRetry w2 =
       (calls_of KRetry w + match RetryFunc c with Some _ => 1 | None => 0 end)%nat
    /\ calls_of KSucceed w2 = calls_of KSucceed w
    /\ calls_of KFailed w2 = calls_of KFailed w
    /\ (Do (S fuel) (Some c) w = Do fuel (Some c2) w2 \/
        Do (S fuel) (Some c) w = deferred (Do fuel (Some c2) w2)).
Proof.
  intros AR HB R LT.
  assert (Rc : int_min <= times (fst (c, w)) + 1 <= int_max) by exact R.
  destruct (entry_counters hooks (c, w) K Rc) as [ET EM]. cbn [fst] in ET, EM.
  destruct (answered_counters hooks ClientDo (c, w)) as [CT CM].
  pose proof (entry_RetryFunc KR c w) as RF.
  pose proof (answered_attempts hooks ClientDo (c, w)) as NA. cbn [snd] in NA.
  pose proof (answered_world hooks ClientDo (c, w)) as AW.
  assert (CK : forall k, k <> KStart -> k <> KEnd ->
                         calls_of k (snd (answered (c, w))) = calls_of k w).
  { intros k NS NE. rewrite AW, calls_of_app, (entry_calls hooks k (c, w)) by assumption.
    cbn [snd]. assert (X : calls_of k [EvNet (Client_ (fst (entry (c, w))))
                                         (Req (fst (entry (c, w))))] = 0%nat)
      by (destruct k; reflexivity).
    rewrite X. lia. }
  pose proof (AR (attempts (snd (entry (c, w)))) (Client_ (fst (entry (c, w))))
                (Req (fst (entry (c, w))))) as AN.
  change (result (ClientDo (attempts (snd (entry (c, w)))) (Client_ (fst (entry (c, w))))
                    (Req (fst (entry (c, w)))))) with (answer (c, w)) in AN.
  remember (fst (answered (c, w))) as c1 eqn:C1.
  remember (snd (answered (c, w))) as w1 eqn:W1.
  enter_Do c w; [exfalso; lia|].
  rewrite <- C1, <- W1.
  destruct (answer (c, w)) as [r e | resp].
  - destruct AN as [TO HK]. rewrite TO.
    destruct (RetryFunc c1) as [h|] eqn:RF1.
    + destruct (K h c1) as [KT KM].
      exists (hooks h c1), (emit (EvHook KRetry h) w1).
      rewrite <- RF, KR, RF1.
      repeat split; try lia.
      * rewrite attempts_emit, NA. cbn. lia.
      * rewrite calls_of_emit, (CK KRetry) by discriminate. reflexivity.
      * rewrite calls_of_emit, (CK KSucceed) by discriminate. cbn. lia.
      * rewrite calls_of_emit, (CK KFailed) by discriminate. cbn. lia.
      * left. reflexivity.
    + exfalso. apply (HB HK). now rewrite <- RF.
  - rewrite AN. cbn [String.eqb Ascii.eqb Bool.eqb andb].
    destruct (RetryFunc c1) as [h|] eqn:RF1.
    + destruct (K h c1) as [KT KM].
      exists (hooks h c1),
        (emit (EvHook KRetry h) (Println (LogRetryStatus (times c1) (StatusCode resp)) w1)).
      rewrite <- RF, KR, RF1.
      repeat split; try lia.
      * unfold Println. rewrite !attempts_emit, NA. cbn. lia.
      * unfold Println. rewrite !calls_of_emit, (CK KRetry) by discriminate. cbn. lia.
      * unfold Println. rewrite !calls_of_emit, (CK KSucceed) by discriminate. cbn. lia.
      * unfold Println. rewrite !calls_of_emit, (CK KFailed) by discriminate. cbn. lia.
      * right. reflexivity.
    + exists c1, (Println (LogRetryStatus (times c1) (StatusCode resp)) w1).
      rewrite <- RF.
      repeat split; try lia; try exact RF1.
      * unfold Println. rewrite !attempts_emit, NA. cbn. lia.
      * unfold Println. rewrite !calls_of_emit, (CK KRetry) by discriminate. cbn. lia.
      * unfold Println. rewrite !calls_of_emit, (CK KSucceed) by discriminate. cbn. lia.
      * unfold Println. rewrite !calls_of_emit, (CK KFailed) by discriminate. cbn. lia.
      * right. reflexivity.
Qed.

Lemma retry_chain (K : keeps) (KR : keeps_RetryFunc hooks) (hooked : bool)
      (AR : always_retryable ClientDo StatusCodeMap hooked) :
  forall (fuel : nat) (c : Context) (w : World),
    (hooked = true -> RetryFunc c <> None) ->
    int_min <= times c + 1 ->
    times c <= MaxTimes c < int_max ->
    (Z.to_nat (MaxTimes c - times c) < fuel)%nat ->
    exists c' w',
      Do fuel (Some c) w = Some (Some c', w')
      /\ attempts w' = (attempts w + Z.to_nat (MaxTimes c - times c))%nat
      /\ calls_of KRetry w' =
         (calls_of KRetry w
          + match RetryFunc c with
            | Some _ => Z.to_nat (MaxTimes c - times c)
            | None => 0
            end)%nat
      /\ calls_of KSucceed w' = calls_of KSucceed w
      /\ calls_of KFailed w' = calls_of KFailed w
      /\ times c' = MaxTimes c + 1.
Proof.
  induction fuel as [|fuel IH]; intros c w HB R M F; [lia|].
  assert (Rc : int_min <= times (fst (c, w)) + 1 <= int_max)
    by (cbn [fst]; unfold int_max in *; lia).
  destruct (entry_counters hooks (c, w) K Rc) as [ET EM]. cbn [fst] in ET, EM.
  destruct (Z.eq_dec (times c) (MaxTimes c)) as [EQ | NE].
  - assert (B : times (fst (entry (c, w))) > MaxTimes (fst (entry (c, w)))) by lia.
    rewrite (Do_exceeded hooks ClientDo StatusCodeMap fuel c w B).
    exists (fst (entry (c, w))),
      (snd (entry (c, w)) ++ [EvLog (LogBudget (MaxTimes (fst (entry (c, w)))))]).
    split; [reflexivity|].
    replace (Z.to_nat (MaxTimes c - times c)) with 0%nat by lia.
    rewrite attempts_app, !calls_of_app, (entry_attempts hooks (c, w)),
      (entry_calls hooks KRetry (c, w)), (entry_calls hooks KSucceed (c, w)),
      (entry_calls hooks KFailed (c, w)) by discriminate.
    cbn [snd].
    assert (LA : forall l, attempts [EvLog l] = 0%nat) by reflexivity.
    assert (LK : forall k l, calls_of k [EvLog l] = 0%nat) by (intros [] l; reflexivity).
    rewrite LA, !LK.
    destruct (RetryFunc c); repeat split; lia.
  - assert (Rs : int_min <= times c + 1 <= int_max) by (unfold int_max in *; lia).
    assert (LT : times c < MaxTimes c) by lia.
    destruct (retry_step K KR hooked fuel c w AR HB Rs LT)
      as [c2 [w2 [T2 [M2 [RF2 [A2 [R2 [S2 [X2 E2]]]]]]]]].
    assert (HB2 : hooked = true -> RetryFunc c2 <> None) by (rewrite RF2; exact HB).
    assert (Rn : int_min <= times c2 + 1) by lia.
    assert (Mn : times c2 <= MaxTimes c2 < int_max) by lia.
    assert (Fn : (Z.to_nat (MaxTimes c2 - times c2) < fuel)%nat) by lia.
    destruct (IH c2 w2 HB2 Rn Mn Fn) as [c' [w' [E' [A' [R' [S' [X' T']]]]]]].
    assert (N : Z.to_nat (MaxTimes c - times c)
                = S (Z.to_nat (MaxTimes c2 - times c2))) by lia.
    rewrite RF2 in R'.
    destruct E2 as [E2 | E2]; rewrite E2, E'.
    + exists c', w'. split; [reflexivity|].
      rewrite A', R', S', X', T', A2, R2, S2, X2, N.
      destruct (RetryFunc c); repeat split; lia.
    + exists (fst (close_body (c', w'))), (snd (close_body (c', w'))).
      split; [reflexivity|].
      rewrite close_body_attempts, !close_body_calls.
      destruct (close_body_counters (c', w')) as [CT _]. rewrite CT. cbn [fst snd].
      rewrite A', R', S', X', T', A2, R2, S2, X2, N.
      destruct (RetryFunc c); repeat split; lia.
Qed.

(** X7.  When every answer of the transport asks for a retry (a response
    whose status the table maps to [retry], or, [RetryFunc] being set, a
    timeout), with hooks that keep the counters and the [RetryFunc] field:
    the chain makes exactly the attempts the budget leaves,
    [MaxTimes - times], calls [RetryFunc], when set, once per attempt, never
    calls [SucceedFunc] or [FailedFunc], and leaves the counter at
    [MaxTimes + 1]. *)
Theorem Do_retries_until_the_budget_is_spent
  (fuel : nat) (c : Context) (w : World) :
  keeps ->
  keeps_RetryFunc hooks ->
  always_retryable ClientDo StatusCodeMap
    (match RetryFunc c with Some _ => true | None => false end) ->
  0 <= times c <= MaxTimes c ->
  MaxTimes c < int_max ->
  (Z.to_nat (MaxTimes c - times c) < fuel)%nat ->
  exists c' w',
    Do fuel (Some c) w = Some (Some c', w')
    /\ attempts w' = (attempts w + Z.to_nat (MaxTimes c - times c))%nat
    /\ calls_of KRetry w' =
       (calls_of KRetry w
        + match RetryFunc c with
          | Some _ => Z.to_nat (MaxTimes c - times c)
          | None => 0
          end)%nat
    /\ calls_of KSucceed w' = calls_of KSucceed w
    /\ calls_of KFailed w' = calls_of KFailed w
    /\ times c' = MaxTimes c + 1.
Proof.
  intros K KR AR R M F.
  apply (retry_chain K KR _ AR fuel c w).
  - destruct (RetryFunc c); [discriminate | discriminate].
  - unfold int_min. lia.
  - lia.
  - exact F.
Qed.

(** X8.  [SetRetryTimes] sets the budget and leaves the counter as it is,
    so the attempts a context has made count against the new budget: with
    hooks that keep the counters, a chain started after [SetRetryTimes n]
    makes at most [n - times] attempts, and none when [n <= times], as for
    [n <= 0]. *)
Theorem SetRetryTimes_counts_the_attempts_made
  (fuel : nat) (c : Context) (n : Z) (w : World)
  (c' : option Context) (w' : World) :
  keeps ->
  0 <= times c < int_max ->
  n < int_max ->
  Do fuel (Some (SetRetryTimes n c)) w = Some (c', w') ->
  (attempts w' <= attempts w + Z.to_nat (n - times c))%nat
  /\ (n <= times c -> attempts w' = attempts w).
Proof.
  intros K R N E.
  assert (Rc : int_min <= times (SetRetryTimes n c) + 1 <= int_max)
    by (cbn; unfold int_min, int_max in *; lia).
  assert (Mc : MaxTimes (SetRetryTimes n c) < int_max) by exact N.
  pose proof (Do_bound hooks ClientDo StatusCodeMap K fuel (SetRetryTimes n c) w c' w'
                Rc Mc E) as B.
  cbn [SetRetryTimes times MaxTimes] in B.
  destruct (Do_run fuel (SetRetryTimes n c) w c' w' E)
    as [c0 [run [tail [_ [W _]]]]].
  split; [exact B|].
  intros LE. assert (Z0 : Z.to_nat (n - times c) = 0%nat) by lia.
  rewrite Z0 in B. rewrite W, attempts_app in *. lia.
Qed.

(** ** Classes the [switch] of [Do] does not know *)


(** ** [Upload] and the file *)

Ltac enter_Upload c w :=
  cbn [gathertool.Upload];
  destruct (Z.gtb_spec (times (count c)) (MaxTimes (count c)));
  [ exfalso; lia | ];
  change (attempt ClientDo false (count c, w))
    with (Upload_answer (c, w), (fst (Upload_answered (c, w)), snd (Upload_answered (c, w))));
  cbv iota beta.

(** X10.  When the attempt of [Upload] ends in a timeout, nothing is
    written: with [RetryFunc] unset [Upload] returns, and with [RetryFunc]
    set the retry is made by [Do], which buffers the body in [RespBody] and
    never touches a file; [filePath] is not even created. *)
Theorem Upload_timeout_writes_no_file
  (fuel : nat) (filePath : string) (c : Context) (w : World)
  (r : option Response) (e : string) (c' : option Context) (w' : World) :
  times (count c) <= MaxTimes (count c) ->
  Upload_answer (c, w) = TransportErr r e ->
  Contains e timeout_marker = true ->
  Upload fuel filePath (Some c) w = Some (c', w') ->
  file_events w' = file_events w.
Proof.
  intros B A T E.
  assert (AW : file_events (snd (Upload_answered (c, w))) = file_events w).
  { rewrite (Upload_answered_world ClientDo c w), file_events_app.
    cbn. now rewrite app_nil_r. }
  revert E. enter_Upload c w. rewrite A, T.
  destruct (RetryFunc (fst (Upload_answered (c, w)))) as [h|]; intros E.
  - destruct (Do_run _ _ _ _ _ E) as [c0 [run [tail [_ [-> [RF [TF _]]]]]]].
    destruct (run_events_count run RF) as [_ FR].
    destruct (close_events_count tail TF) as [_ [_ [FT _]]].
    unfold call, emit. cbn [fst snd].
    rewrite !file_events_app, FR, FT, AW. cbn. now rewrite !app_nil_r.
  - apply ret_inv in E as [-> _]. exact AW.
Qed.

(** X11.  When [os.Create] fails, [Upload] stores the error in [c.Err] and
    returns after closing the response body: nothing is written and no hook
    is called, so the caller learns of the failure from [c.Err] only. *)
Theorem Upload_create_failure
  (fuel : nat) (filePath : string) (c : Context) (w : World)
  (resp : Response) (e : string) :
  times (count c) <= MaxTimes (count c) ->
  Upload_answer (c, w) = Received resp ->
  Create filePath = Some e ->
  exists c',
    Upload fuel filePath (Some c) w =
      Some (Some c', w ++ [EvNet (Client_ (count c)) (Req (count c)); EvClose])
    /\ Err c' = Some e
    /\ RespBody c' = RespBody c.
Proof.
  intros B A CR.
  assert (RS : Resp (fst (Upload_answered (c, w))) = Some resp).
  { unfold gathertool.Upload_answered, gathertool.Upload_answer, attempt in *.
    cbn [fst snd] in *. rewrite A. reflexivity. }
  assert (RB : RespBody (fst (Upload_answered (c, w))) = RespBody c).
  { unfold gathertool.Upload_answered, attempt. cbn [fst snd].
    destruct (result _); reflexivity. }
  enter_Upload c w. rewrite A, CR.
  rewrite (Upload_answered_world ClientDo c w).
  unfold deferred, ret, close_body. cbn [fst snd set_Err Resp]. rewrite RS.
  eexists. split.
  { unfold emit. cbn [fst snd]. rewrite <- app_assoc. reflexivity. }
  split; [reflexivity | exact RB].
Qed.

(** *** What the transfer loop writes and counts *)

Lemma file_content_app (path : string) (w1 w2 : World) :
  forall old,
    file_content path old (w1 ++ w2) = file_content path (file_content path old w1) w2.
Proof.
  induction w1 as [|x w1 IH]; intros old; [reflexivity|].
  destruct x; cbn [app file_content]; apply IH.
Qed.

Lemma transfer_trace (path header : string) (body : Reader) :
  forall (i sum : Z) (w : World),
    exists tr,
      snd (transfer path header i sum body w) = w ++ tr
      /\ (forall old, file_content path old tr = old ++ List.concat (taken body))
      /\ attempts tr = 0%nat /\ hook_calls tr = 0%nat /\ closes tr = 0%nat.
Proof.
  induction body as [|[chunk e] rest IH]; intros i sum w.
  - cbn [transfer Read fst snd taken]. unfold emit.
    exists [EvWrite path []]. split; [reflexivity|].
    split; [|repeat split].
    intros old. cbn [file_content List.concat]. now rewrite String.eqb_refl.
  - cbn [transfer Read fst snd taken].
    destruct (stops e (Z.of_nat (List.length (firstn buf_len chunk)))).
    + cbn [fst snd]. unfold emit.
      exists [EvWrite path (firstn buf_len chunk)]. split; [reflexivity|].
      split; [|repeat split].
      intros old. cbn [file_content List.concat]. rewrite String.eqb_refl.
      now rewrite app_nil_r.
    + match goal with
      | |- context [transfer _ _ ?i' ?sum' rest ?w'] =>
          destruct (IH i' sum' w') as [tr [W [FC [A [H C]]]]]
      end.
      destruct (Z.rem (wrap_int (i + 1)) 9 =? 0); unfold Println, emit in *.
      * eexists. split; [rewrite W, <- !app_assoc; reflexivity|].
        split; [|repeat split].
        -- intros old. cbn [app file_content List.concat].
           rewrite String.eqb_refl, FC. now rewrite app_assoc.
        -- cbn [app]. unfold attempts in *. cbn [filter is_net]. exact A.
        -- cbn [app]. unfold hook_calls in *. cbn [filter is_hook]. exact H.
        -- cbn [app]. unfold closes in *. cbn [filter is_close]. exact C.
      * eexists. split; [rewrite W, <- !app_assoc; reflexivity|].
        split; [|repeat split].
        -- intros old. cbn [app file_content List.concat].
           rewrite String.eqb_refl, FC. now rewrite app_assoc.
        -- cbn [app]. unfold attempts in *. cbn [filter is_net]. exact A.
        -- cbn [app]. unfold hook_calls in *. cbn [filter is_hook]. exact H.
        -- cbn [app]. unfold closes in *. cbn [filter is_close]. exact C.
Qed.

Lemma transfer_sum (path header : string) (body : Reader) :
  forall (i sum : Z) (w : World),
    0 <= sum ->
    sum + taken_bytes body <= int_max ->
    fst (fst (transfer path header i sum body w)) = sum + taken_bytes body.
Proof.
  unfold taken_bytes.
  induction body as [|[chunk e] rest IH]; intros i sum w S0 SM.
  - cbn [transfer Read fst snd taken List.concat app List.length] in *.
    apply wrap_int_id. unfold int_min. cbn in *. lia.
  - cbn [transfer Read fst snd taken] in *.
    destruct (stops e (Z.of_nat (List.length (firstn buf_len chunk)))).
    + cbn [fst snd List.concat] in *. rewrite app_nil_r in *.
      apply wrap_int_id. unfold int_min. lia.
    + cbn [List.concat] in SM. rewrite length_app in SM.
      assert (WI : wrap_int (sum + Z.of_nat (List.length (firstn buf_len chunk)))
                   = sum + Z.of_nat (List.length (firstn buf_len chunk)))
        by (apply wrap_int_id; unfold int_min; lia).
      rewrite WI, IH by lia.
      cbn [List.concat]. rewrite length_app. lia.
Qed.

(** Readers that stay within the buffer and never answer with no byte and
    no error deliver to the loop what they deliver to [ioutil.ReadAll]. *)
Lemma taken_content (body : Reader) :
  well_chunked body -> List.concat (taken body) = content body.
Proof.
  unfold well_chunked.
  induction 1 as [|[chunk e] rest [L NZ] _ IH]; [reflexivity|].
  cbn [fst snd] in *. cbn [taken content].
  rewrite (firstn_all2 chunk) by lia.
  destruct e as [| | msg]; cbn [stops].
  - destruct (Z.eqb_spec (Z.of_nat (List.length chunk)) 0) as [Z0 | _].
    + exfalso. apply (NZ eq_refl). destruct chunk; [reflexivity | cbn in Z0; lia].
    + cbn [List.concat]. now rewrite IH.
  - cbn [List.concat]. now rewrite app_nil_r.
  - cbn [List.concat]. now rewrite app_nil_r.
Qed.

(** A reader that delivers chunks and then answers once with no byte and
    no error: the loop takes the chunks and stops there. *)
Lemma taken_stalled (pre rest : Reader) :
  Forall (fun a => snd a = RNil /\ fst a <> []
                   /\ (List.length (fst a) <= buf_len)%nat) pre ->
  List.concat (taken (pre ++ ([], RNil) :: rest)) = List.concat (map fst pre)
  /\ content (pre ++ ([], RNil) :: rest) = List.concat (map fst pre) ++ content rest.
Proof.
  induction 1 as [|[chunk e] pre [E [NZ L]] _ [IH1 IH2]].
  - cbn. split; reflexivity.
  - cbn [fst snd] in *. subst e.
    cbn [app taken content map List.concat stops].
    rewrite (firstn_all2 chunk) by lia.
    destruct (Z.eqb_spec (Z.of_nat (List.length chunk)) 0) as [Z0 | _].
    + exfalso. apply NZ. destruct chunk; [reflexivity | cbn in Z0; lia].
    + cbn [List.concat]. rewrite IH1, IH2. split; [reflexivity | now rewrite app_assoc].
Qed.

(** [Upload] on a received response, the file created. *)
Lemma Upload_received
  (fuel : nat) (filePath : string) (c : Context) (w : World) (resp : Response) :
  times (count c) <= MaxTimes (count c) ->
  Upload_answer (c, w) = Received resp ->
  Create filePath = None ->
  exists c' tr sum,
    Upload fuel filePath (Some c) w =
      Some (Some c',
            (w ++ [EvNet (Client_ (count c)) (Req (count c)); EvCreate filePath])
            ++ tr
            ++ [EvLog (LogDownload filePath sum (ContentLength resp) true);
                EvFileClose filePath; EvClose])
    /\ (forall old, file_content filePath old tr = old ++ List.concat (taken (Body resp)))
    /\ (taken_bytes (Body resp) <= int_max -> sum = taken_bytes (Body resp))
    /\ attempts tr = 0%nat /\ hook_calls tr = 0%nat.
Proof.
  intros B A CR.
  pose proof (Upload_answered_world ClientDo c w) as AW.
  set (w0 := emit (EvCreate filePath) (snd (Upload_answered (c, w)))).
  destruct (transfer_trace filePath (ContentLength resp) (Body resp) 0 0 w0)
    as [tr [W [FC [AT [HT _]]]]].
  pose proof (transfer_sum filePath (ContentLength resp) (Body resp) 0 0 w0) as TS.
  enter_Upload c w. rewrite A, CR. fold w0.
  destruct (transfer filePath (ContentLength resp) 0 0 (Body resp) w0)
    as [[sum rest] w4].
  cbn [fst snd] in W, TS. subst w4.
  exists (fst (close_body
                 (set_Resp (Some (with_Body rest resp)) (fst (Upload_answered (c, w))),
                  emit (EvFileClose filePath)
                    (Println (LogDownload filePath sum (ContentLength resp) true)
                       (w0 ++ tr))))),
    tr, sum.
  split; [|split; [exact FC | split; [|split; [exact AT | exact HT]]]].
  - rewrite deferred_ret. unfold ret. f_equal. f_equal.
    unfold close_body. cbn [fst snd Resp set_Resp].
    unfold w0, Println, emit. rewrite AW. rewrite <- !app_assoc. reflexivity.
  - intros LE. rewrite TS by lia. lia.
Qed.

(** X12.  On a received response, whatever its status, [Upload] replaces
    the content of [filePath] by the body: for a reader that answers within
    the buffer and never with no byte and no error, the file ends up
    holding exactly the bytes [ioutil.ReadAll] returns for that body, all
    it delivers up to and including its first read with an error status,
    whatever the file held before.  They are kept also when that read is a
    failure, in which case [ioutil.ReadAll] returns them with an error. *)
Theorem Upload_stores_the_body
  (fuel : nat) (filePath : string) (c : Context) (w : World) (resp : Response) :
  times (count c) <= MaxTimes (count c) ->
  Upload_answer (c, w) = Received resp ->
  Create filePath = None ->
  well_chunked (Body resp) ->
  exists c' w',
    Upload fuel filePath (Some c) w = Some (Some c', w')
    /\ forall old,
         file_content filePath old w' = fst (fst (ReadAll (Body resp))).
Proof.
  intros B A CR WC.
  destruct (Upload_received fuel filePath c w resp B A CR)
    as [c' [tr [sum [E [FC _]]]]].
  eexists. eexists. split; [exact E|].
  intros old. rewrite !file_content_app, FC.
  cbn [file_content]. rewrite String.eqb_refl. cbn [app].
  rewrite ReadAll_content. apply taken_content. exact WC.
Qed.

(** X13.  The last log line of a download reports the number of bytes
    written: the cumulative count of [Upload] equals the length of the file
    it leaves (the count being an [int64], as long as it fits). *)
Theorem Upload_reports_the_bytes_written
  (fuel : nat) (filePath : string) (c : Context) (w : World) (resp : Response) :
  times (count c) <= MaxTimes (count c) ->
  Upload_answer (c, w) = Received resp ->
  Create filePath = None ->
  taken_bytes (Body resp) <= int_max ->
  exists c' w0 sum,
    Upload fuel filePath (Some c) w =
      Some (Some c',
            w0 ++ [EvLog (LogDownload filePath sum (ContentLength resp) true);
                   EvFileClose filePath; EvClose])
    /\ forall old,
         sum = Z.of_nat (List.length
                           (file_content filePath old
                              (w0 ++ [EvLog (LogDownload filePath sum
                                               (ContentLength resp) true);
                                      EvFileClose filePath; EvClose]))).
Proof.
  intros B A CR LE.
  destruct (Upload_received fuel filePath c w resp B A CR)
    as [c' [tr [sum [E [FC [SM _]]]]]].
  exists c',
    ((w ++ [EvNet (Client_ (count c)) (Req (count c)); EvCreate filePath]) ++ tr),
    sum.
  split; [rewrite E, <- !app_assoc; reflexivity|].
  intros old. rewrite !file_content_app, FC.
  cbn [file_content]. rewrite String.eqb_refl. cbn [app].
  rewrite (SM LE). reflexivity.
Qed.

(** X14.  A read that returns no byte and no error ends the download: the
    file holds the chunks read before it and nothing of what the body
    delivers afterwards, which [ioutil.ReadAll] would have gone on to read. *)
Theorem Upload_stops_at_an_empty_read
  (fuel : nat) (filePath : string) (c : Context) (w : World) (resp : Response)
  (pre rest : Reader) :
  times (count c) <= MaxTimes (count c) ->
  Upload_answer (c, w) = Received resp ->
  Create filePath = None ->
  Body resp = pre ++ ([], RNil) :: rest ->
  Forall (fun a => snd a = RNil /\ fst a <> []
                   /\ (List.length (fst a) <= buf_len)%nat) pre ->
  (exists c' w',
      Upload fuel filePath (Some c) w = Some (Some c', w')
      /\ forall old, file_content filePath old w' = List.concat (map fst pre))
  /\ content (Body resp) = List.concat (map fst pre) ++ content rest.
Proof.
  intros B A CR BD FL.
  destruct (taken_stalled pre rest FL) as [TK CT].
  split; [|rewrite BD; exact CT].
  destruct (Upload_received fuel filePath c w resp B A CR)
    as [c' [tr [sum [E [FC _]]]]].
  eexists. eexists. split; [exact E|].
  intros old. rewrite !file_content_app, FC.
  cbn [file_content]. rewrite String.eqb_refl. cbn [app].
  rewrite BD. exact TK.
Qed.

End Chains.

(** ** The cookie pool over sequences of calls *)

Lemma run_ops_pool (ops : list PoolOp) :
  forall p, mux p = false ->
    run_ops ops p = mkPool (cookie p ++ added ops) false.
Proof.
  induction ops as [|op ops IH]; intros p F.
  - cbn. rewrite app_nil_r. destruct p as [cks m]. cbn in *. now subst m.
  - cbn [run_ops added]. destruct op as [ck | v]; cbn [step_op].
    + unfold Add. rewrite F. cbn [snd]. rewrite IH by reflexivity.
      cbn [cookie]. now rewrite <- app_assoc.
    + assert (G : snd (Get v p) = mkPool (cookie p) false).
      { unfold Get. rewrite F.
        destruct (Int63n v (Z.of_nat (List.length (cookie p)))) as [n | msg |].
        - destruct (nth_error (cookie p) (Z.to_nat n)); reflexivity.
        - reflexivity.
        - unfold Int63n in *. destruct p as [cks m]. cbn in *. now subst m. }
      rewrite G, IH by reflexivity. reflexivity.
Qed.

(** X15.  After any sequence of [Add] and [Get] calls on the package pool,
    the pool holds exactly the cookies added, in the order of the calls,
    and its mutex is free: [Get] removes nothing, also when it panics on
    the empty pool, and the deferred [Unlock] always runs. *)
Theorem pool_holds_the_added_cookies (ops : list PoolOp) :
  run_ops ops CookiePool = mkPool (added ops) false.
Proof. exact (run_ops_pool ops CookiePool eq_refl). Qed.

(** X16.  Every cookie in the pool can be drawn: after any sequence of
    calls, [Get] with the random value [i] returns the [i]-th cookie added,
    and leaves the pool as it is. *)
Theorem Get_reaches_every_added_cookie
  (ops : list PoolOp) (i : nat) (ck : Cookie) :
  nth_error (added ops) i = Some ck ->
  Get (Z.of_nat i) (run_ops ops CookiePool)
  = (Returned ck, run_ops ops CookiePool).
Proof.
  intros N. rewrite (run_ops_pool ops CookiePool eq_refl). cbn [cookie CookiePool app].
  assert (L : (i < List.length (added ops))%nat)
    by (apply nth_error_Some; congruence).
  unfold Get, Int63n. cbn [mux cookie].
  destruct (Z.leb_spec (Z.of_nat (List.length (added ops))) 0) as [X | _]; [lia|].
  rewrite Z.mod_small by lia. rewrite Nat2Z.id, N. reflexivity.
Qed.

(** ** The further properties on concrete runs *)

Lemma quiet_hooks_keep_RetryFunc : keeps_RetryFunc quiet_hooks.
Proof. intros h c. reflexivity. Defined.

(** X1 on a chain of two attempts. *)
Lemma Do_never_touches_files_witness :
  exists c' w',
    Do quiet_hooks (always (Received (resp 500 ok_body))) table 5
      (Some (fresh 2 None None (Some 3%nat) None None)) [] = Some (c', w')
    /\ file_events w' = file_events [].
Proof.
  destruct (Do quiet_hooks (always (Received (resp 500 ok_body))) table 5
              (Some (fresh 2 None None (Some 3%nat) None None)) [])
    as [[c' w']|] eqn:E; [|vm_compute in E; discriminate E].
  exists c', w'. split; [reflexivity|].
  exact (Do_never_touches_files _ _ _ _ _ _ _ _ E).
Defined.

(** X2 on a chain that retries once and then succeeds. *)
Lemma Do_calls_one_final_hook_at_most_witness :
  let ClientDo := scripted [Received (resp 500 ok_body)] (Received (resp 200 ok_body)) in
  exists c' w',
    Do quiet_hooks ClientDo table 5
      (Some (fresh 3 (Some 1%nat) (Some 2%nat) (Some 3%nat) None None)) []
    = Some (c', w')
    /\ (calls_of KSucceed w' + calls_of KFailed w'
        <= calls_of KSucceed [] + calls_of KFailed [] + 1)%nat.
Proof.
  intros ClientDo.
  destruct (Do quiet_hooks ClientDo table 5
              (Some (fresh 3 (Some 1%nat) (Some 2%nat) (Some 3%nat) None None)) [])
    as [[c' w']|] eqn:E; [|vm_compute in E; discriminate E].
  exists c', w'. split; [reflexivity|].
  exact (Do_calls_one_final_hook_at_most _ _ _ _ _ _ _ _ E).
Defined.

(** X3 on the same chain. *)
Lemma Do_outcome_hooks_follow_attempts_witness :
  let ClientDo := scripted [Received (resp 500 ok_body)] (Received (resp 200 ok_body)) in
  exists c' w',
    Do quiet_hooks ClientDo table 5
      (Some (fresh 3 (Some 1%nat) (Some 2%nat) (Some 3%nat) None None)) []
    = Some (c', w')
    /\ (calls_of KRetry w' + calls_of KSucceed w' + calls_of KFailed w' + attempts []
        <= calls_of KRetry [] + calls_of KSucceed [] + calls_of KFailed []
           + attempts w')%nat.
Proof.
  intros ClientDo.
  destruct (Do quiet_hooks ClientDo table 5
              (Some (fresh 3 (Some 1%nat) (Some 2%nat) (Some 3%nat) None None)) [])
    as [[c' w']|] eqn:E; [|vm_compute in E; discriminate E].
  exists c', w'. split; [reflexivity|].
  exact (Do_outcome_hooks_follow_attempts _ _ _ _ _ _ _ _ E).
Defined.

(** X4 on a chain whose first attempt receives a response to retry and
    whose second attempt is refused: the body received is never closed. *)
Lemma Do_closes_bodies_when_the_chain_returns_witness :
  let ClientDo := scripted [Received (resp 500 ok_body)] (TransportErr None refused_err) in
  exists c' w',
    Do quiet_hooks ClientDo table 5
      (Some (fresh 3 None (Some 2%nat) (Some 3%nat) None None)) []
    = Some (c', w')
    /\ exists c0 run tail,
         c' = Some c0 /\ w' = [] ++ run ++ tail
         /\ closes run = 0%nat
         /\ attempts run = (attempts w' - attempts [])%nat
         /\ Forall (fun x => x = EvClose) tail
         /\ (Resp c0 = None -> closes w' = closes []).
Proof.
  intros ClientDo.
  destruct (Do quiet_hooks ClientDo table 5
              (Some (fresh 3 None (Some 2%nat) (Some 3%nat) None None)) [])
    as [[c' w']|] eqn:E; [|vm_compute in E; discriminate E].
  exists c', w'. split; [reflexivity|].
  exact (Do_closes_bodies_when_the_chain_returns _ _ _ _ _ _ _ _ E).
Defined.

(** X5 on a fresh context with a start hook and two attempts. *)
Lemma Do_calls_StartFunc_first_and_once_witness :
  let c := fresh 2 None None (Some 3%nat) (Some 4%nat) None in
  keeps_counters quiet_hooks
  /\ times c = 0
  /\ StartFunc c = Some 4%nat
  /\ MaxTimes c < int_max
  /\ (Z.to_nat (MaxTimes c) < 3)%nat
  /\ exists c' rest,
       Do quiet_hooks (always (Received (resp 500 ok_body))) table 3 (Some c) []
       = Some (Some c', [] ++ EvHook KStart 4%nat :: rest)
       /\ calls_of KStart rest = 0%nat
       /\ (attempts rest <= Z.to_nat (MaxTimes c))%nat.
Proof.
  intros c.
  assert (K : keeps_counters quiet_hooks) by exact quiet_hooks_keep_counters.
  assert (T : times c = 0) by reflexivity.
  assert (SF : StartFunc c = Some 4%nat) by reflexivity.
  assert (M : MaxTimes c < int_max) by (unfold int_max; simpl; lia).
  assert (F : (Z.to_nat (MaxTimes c) < 3)%nat) by (simpl; lia).
  refine (conj K (conj T (conj SF (conj M (conj F _))))).
  exact (Do_calls_StartFunc_first_and_once quiet_hooks
           (always (Received (resp 500 ok_body))) table 3 c [] 4%nat K T SF M F).
Defined.

(** X6 on a chain of two attempts that ends with the budget spent. *)
Lemma Do_EndFunc_excludes_final_hooks_witness :
  let c := fresh 2 (Some 1%nat) (Some 2%nat) (Some 3%nat) None (Some 5%nat) in
  keeps_counters quiet_hooks
  /\ 0 <= times c < int_max
  /\ MaxTimes c < int_max
  /\ exists c' w',
       Do quiet_hooks (always (Received (resp 500 ok_body))) table 5 (Some c) []
       = Some (c', w')
       /\ (calls_of KEnd w' + calls_of KSucceed w' + calls_of KFailed w'
           <= calls_of KEnd [] + calls_of KSucceed [] + calls_of KFailed [] + 1)%nat.
Proof.
  intros c.
  assert (K : keeps_counters quiet_hooks) by exact quiet_hooks_keep_counters.
  assert (R : 0 <= times c < int_max) by (unfold int_max; simpl; lia).
  assert (M : MaxTimes c < int_max) by (unfold int_max; simpl; lia).
  refine (conj K (conj R (conj M _))).
  destruct (Do quiet_hooks (always (Received (resp 500 ok_body))) table 5 (Some c) [])
    as [[c' w']|] eqn:E; [|vm_compute in E; discriminate E].
  exists c', w'. split; [reflexivity|].
  exact (Do_EndFunc_excludes_final_hooks _ _ _ _ _ _ _ _ K R M E).
Defined.

(** X7 on the scenario of two attempts answered by status 500. *)
Lemma Do_retries_until_the_budget_is_spent_witness :
  let c := fresh 2 None (Some 2%nat) (Some 3%nat) None None in
  let ClientDo := always (Received (resp 500 ok_body)) in
  keeps_counters quiet_hooks
  /\ keeps_RetryFunc quiet_hooks
  /\ always_retryable ClientDo table
       (match RetryFunc c with Some _ => true | None => false end)
  /\ 0 <= times c <= MaxTimes c
  /\ MaxTimes c < int_max
  /\ (Z.to_nat (MaxTimes c - times c) < 3)%nat
  /\ exists c' w',
       Do quiet_hooks ClientDo table 3 (Some c) [] = Some (Some c', w')
       /\ attempts w' = 2%nat
       /\ calls_of KRetry w' = 2%nat
       /\ calls_of KFailed w' = 0%nat.
Proof.
  intros c ClientDo.
  assert (K : keeps_counters quiet_hooks) by exact quiet_hooks_keep_counters.
  assert (KR : keeps_RetryFunc quiet_hooks) by exact quiet_hooks_keep_RetryFunc.
  assert (AR : always_retryable ClientDo table
                 (match RetryFunc c with Some _ => true | None => false end))
    by (intros n cl rq; reflexivity).
  assert (R : 0 <= times c <= MaxTimes c) by (simpl; lia).
  assert (M : MaxTimes c < int_max) by (unfold int_max; simpl; lia).
  assert (F : (Z.to_nat (MaxTimes c - times c) < 3)%nat) by (simpl; lia).
  refine (conj K (conj KR (conj AR (conj R (conj M (conj F _)))))).
  destruct (Do_retries_until_the_budget_is_spent quiet_hooks ClientDo table 3 c []
              K KR AR R M F) as [c' [w' [E [A [RC [_ [FC _]]]]]]].
  exists c', w'. split; [exact E|]. split; [exact A|]. split; [exact RC | exact FC].
Defined.

(** X8 on a context that has made two attempts and is given a budget of
    one. *)
Lemma SetRetryTimes_counts_the_attempts_made_witness :
  let c := set_times 2 (fresh 5 None None (Some 3%nat) None None) in
  keeps_counters quiet_hooks
  /\ 0 <= times c < int_max
  /\ 1 < int_max
  /\ exists c' w',
       Do quiet_hooks (always (Received (resp 500 ok_body))) table 5
         (Some (SetRetryTimes 1 c)) [] = Some (c', w')
       /\ attempts w' = attempts [].
Proof.
  intros c.
  assert (K : keeps_counters quiet_hooks) by exact quiet_hooks_keep_counters.
  assert (R : 0 <= times c < int_max) by (unfold int_max; simpl; lia).
  assert (N : 1 < int_max) by (unfold int_max; lia).
  refine (conj K (conj R (conj N _))).
  destruct (Do quiet_hooks (always (Received (resp 500 ok_body))) table 5
              (Some (SetRetryTimes 1 c)) [])
    as [[c' w']|] eqn:E; [|vm_compute in E; discriminate E].
  exists c', w'. split; [reflexivity|].
  apply (proj2 (SetRetryTimes_counts_the_attempts_made _ _ _ _ _ _ _ _ _ K R N E)).
  simpl. lia.
Defined.


(** X10 on a download whose attempts all time out. *)
Lemma Upload_timeout_writes_no_file_witness :
  let c := fresh 2 None (Some 2%nat) (Some 3%nat) None None in
  let ClientDo := always (TransportErr None timeout_err) in
  times (count c) <= MaxTimes (count c)
  /\ Upload_answer ClientDo (c, []) = TransportErr None timeout_err
  /\ Contains timeout_err timeout_marker = true
  /\ exists c' w',
       Upload quiet_hooks ClientDo table create_ok 5 "ip.html" (Some c) []
       = Some (c', w')
       /\ file_events w' = file_events [].
Proof.
  intros c ClientDo.
  assert (B : times (count c) <= MaxTimes (count c)) by (vm_compute; discriminate).
  assert (A : Upload_answer ClientDo (c, []) = TransportErr None timeout_err)
    by reflexivity.
  assert (T : Contains timeout_err timeout_marker = true) by reflexivity.
  refine (conj B (conj A (conj T _))).
  destruct (Upload quiet_hooks ClientDo table create_ok 5 "ip.html" (Some c) [])
    as [[c' w']|] eqn:E; [|vm_compute in E; discriminate E].
  exists c', w'. split; [reflexivity|].
  exact (Upload_timeout_writes_no_file quiet_hooks ClientDo table create_ok 5 "ip.html"
           c [] None timeout_err c' w' B A T E).
Defined.

(** X11 on a file that cannot be created. *)
Lemma Upload_create_failure_witness :
  let c := fresh 2 None (Some 2%nat) (Some 3%nat) None None in
  let ClientDo := always (Received (resp 200 ok_body)) in
  times (count c) <= MaxTimes (count c)
  /\ Upload_answer ClientDo (c, []) = Received (resp 200 ok_body)
  /\ create_fails "ip.html" = Some "open ip.html: permission denied"
  /\ exists c',
       Upload quiet_hooks ClientDo table create_fails 0 "ip.html" (Some c) [] =
         Some (Some c', [] ++ [EvNet (Client_ (count c)) (Req (count c)); EvClose])
       /\ Err c' = Some "open ip.html: permission denied"
       /\ RespBody c' = RespBody c.
Proof.
  intros c ClientDo.
  assert (B : times (count c) <= MaxTimes (count c)) by (vm_compute; discriminate).
  assert (A : Upload_answer ClientDo (c, []) = Received (resp 200 ok_body))
    by reflexivity.
  assert (CR : create_fails "ip.html" = Some "open ip.html: permission denied")
    by reflexivity.
  refine (conj B (conj A (conj CR _))).
  exact (Upload_create_failure quiet_hooks ClientDo table create_fails 0 "ip.html"
           c [] (resp 200 ok_body) _ B A CR).
Defined.

Lemma broken_body_well_chunked : well_chunked broken_body.
Proof.
  unfold well_chunked, broken_body.
  apply Forall_cons; [split; [cbn [fst List.length]; unfold buf_len; lia
                             | intros _; discriminate]|].
  apply Forall_cons; [split; [cbn [fst List.length]; unfold buf_len; lia
                             | intros X; discriminate X]|].
  apply Forall_nil.
Defined.

(** X12 on a body whose second read fails after delivering a byte, with a
    status mapped to [retry]: the file holds both bytes, which are what
    [ioutil.ReadAll] returns, with its error. *)
Lemma Upload_stores_the_body_witness :
  let c := fresh 2 None (Some 2%nat) (Some 3%nat) None None in
  let ClientDo := always (Received (resp 500 broken_body)) in
  times (count c) <= MaxTimes (count c)
  /\ Upload_answer ClientDo (c, []) = Received (resp 500 broken_body)
  /\ create_ok "ip.html" = None
  /\ well_chunked (Body (resp 500 broken_body))
  /\ ReadAll (Body (resp 500 broken_body)) = ([x6f; x6b], Some "unexpected EOF", [])
  /\ exists c' w',
       Upload quiet_hooks ClientDo table create_ok 0 "ip.html" (Some c) []
       = Some (Some c', w')
       /\ forall old,
            file_content "ip.html" old w'
            = fst (fst (ReadAll (Body (resp 500 broken_body)))).
Proof.
  intros c ClientDo.
  assert (B : times (count c) <= MaxTimes (count c)) by (vm_compute; discriminate).
  assert (A : Upload_answer ClientDo (c, []) = Received (resp 500 broken_body))
    by reflexivity.
  assert (CR : create_ok "ip.html" = None) by reflexivity.
  assert (WC : well_chunked (Body (resp 500 broken_body)))
    by exact broken_body_well_chunked.
  assert (RA : ReadAll (Body (resp 500 broken_body))
               = ([x6f; x6b], Some "unexpected EOF", [])) by reflexivity.
  refine (conj B (conj A (conj CR (conj WC (conj RA _))))).
  exact (Upload_stores_the_body quiet_hooks ClientDo table create_ok 0 "ip.html"
           c [] (resp 500 broken_body) B A CR WC).
Defined.

(** X13 on the same download. *)
Lemma Upload_reports_the_bytes_written_witness :
  let c := fresh 2 None (Some 2%nat) (Some 3%nat) None None in
  let ClientDo := always (Received (resp 500 split_body)) in
  times (count c) <= MaxTimes (count c)
  /\ Upload_answer ClientDo (c, []) = Received (resp 500 split_body)
  /\ create_ok "ip.html" = None
  /\ taken_bytes (Body (resp 500 split_body)) <= int_max
  /\ exists c' w0 sum,
       Upload quiet_hooks ClientDo table create_ok 0 "ip.html" (Some c) [] =
         Some (Some c',
               w0 ++ [EvLog (LogDownload "ip.html" sum "2" true);
                      EvFileClose "ip.html"; EvClose])
       /\ forall old,
            sum = Z.of_nat (List.length
                              (file_content "ip.html" old
                                 (w0 ++ [EvLog (LogDownload "ip.html" sum "2" true);
                                         EvFileClose "ip.html"; EvClose]))).
Proof.
  intros c ClientDo.
  assert (B : times (count c) <= MaxTimes (count c)) by (vm_compute; discriminate).
  assert (A : Upload_answer ClientDo (c, []) = Received (resp 500 split_body))
    by reflexivity.
  assert (CR : create_ok "ip.html" = None) by reflexivity.
  assert (LE : taken_bytes (Body (resp 500 split_body)) <= int_max)
    by (vm_compute; discriminate).
  refine (conj B (conj A (conj CR (conj LE _)))).
  exact (Upload_reports_the_bytes_written quiet_hooks ClientDo table create_ok 0
           "ip.html" c [] (resp 500 split_body) B A CR LE).
Defined.

(** X14 on a body that stalls after its first byte. *)
Lemma Upload_stops_at_an_empty_read_witness :
  let c := fresh 2 None (Some 2%nat) (Some 3%nat) None None in
  let ClientDo := always (Received (resp 200 stalled_body)) in
  let pre := [([x6f], RNil)] in
  let rest := [([x6b], REOF)] in
  times (count c) <= MaxTimes (count c)
  /\ Upload_answer ClientDo (c, []) = Received (resp 200 stalled_body)
  /\ create_ok "ip.html" = None
  /\ Body (resp 200 stalled_body) = pre ++ ([], RNil) :: rest
  /\ Forall (fun a => snd a = RNil /\ fst a <> []
                      /\ (List.length (fst a) <= buf_len)%nat) pre
  /\ (exists c' w',
        Upload quiet_hooks ClientDo table create_ok 0 "ip.html" (Some c) []
        = Some (Some c', w')
        /\ forall old, file_content "ip.html" old w' = [x6f])
  /\ content (Body (resp 200 stalled_body)) = [x6f; x6b].
Proof.
  intros c ClientDo pre rest.
  assert (B : times (count c) <= MaxTimes (count c)) by (vm_compute; discriminate).
  assert (A : Upload_answer ClientDo (c, []) = Received (resp 200 stalled_body))
    by reflexivity.
  assert (CR : create_ok "ip.html" = None) by reflexivity.
  assert (BD : Body (resp 200 stalled_body) = pre ++ ([], RNil) :: rest) by reflexivity.
  assert (FL : Forall (fun a => snd a = RNil /\ fst a <> []
                                /\ (List.length (fst a) <= buf_len)%nat) pre).
  { apply Forall_cons; [|apply Forall_nil].
    split; [reflexivity|]. split; [discriminate|].
    cbn [fst List.length]. unfold buf_len. lia. }
  refine (conj B (conj A (conj CR (conj BD (conj FL _))))).
  exact (Upload_stops_at_an_empty_read quiet_hooks ClientDo table create_ok 0 "ip.html"
           c [] (resp 200 stalled_body) pre rest B A CR BD FL).
Defined.

(** X16 on two additions with a draw in between. *)
Lemma Get_reaches_every_added_cookie_witness :
  let ops := [OpAdd ck1; OpGet 0; OpAdd ck2] in
  nth_error (added ops) 1 = Some ck2
  /\ Get (Z.of_nat 1) (run_ops ops CookiePool) = (Returned ck2, run_ops ops CookiePool).
Proof.
  intros ops.
  assert (N : nth_error (added ops) 1 = Some ck2) by reflexivity.
  refine (conj N _).
  exact (Get_reaches_every_added_cookie ops 1 ck2 N).
Defined.
